(** * Mafia WS server (src/server.js, "Rooms + Login/Host/Guest + Role Counts")

    Shallow embedding of the second server variant of [src/server.js]
    (lines 193-451): the room registry, the per-room state, the message
    handlers and the close handler, as a step function on an explicit
    server state that returns the messages sent.

    Modelling choices, all following the source:
    - a WebSocket is identified by its [ws.id]; the open sockets and their
      mutable fields ([roomId], [name]) live in [conns];
    - room objects are shared JS objects: the registry [rooms] maps a room
      code to a reference into [heap], so that [leaveRoom] and the
      [JOIN_ROOM] handler mutate the same object when they hold the same
      room, and a room deleted from the registry survives as an
      unreachable object;
    - JS [Map] and [Set] keep insertion order: they are association lists
      and duplicate-free lists; plain JS objects used as maps likewise;
    - numbers coming from a payload after [Number(...)] are [jsnum]:
      a finite value (a rational) or NaN / +Infinity / -Infinity;
    - [send] checks [ws.readyState === 1]: a message reaches a socket only
      while it is open, i.e. present in [conns]. *)

From Stdlib Require Import QArith Qround Qminmax.
From stdpp Require Import base gmap strings list.
From Stdlib Require Import Permutation.

(** ** JS containers *)

Section Assoc.
Context {K V : Type} `{EqDecision K}.

(** [m.get(k)] / [o[k]] *)
Fixpoint assoc_get (k : K) (m : list (K * V)) : option V :=
  match m with
  | [] => None
  | (k', v) :: t => if decide (k = k') then Some v else assoc_get k t
  end.

(** [m.set(k, v)] / [o[k] = v]: in place if present, appended otherwise *)
Fixpoint assoc_set (k : K) (v : V) (m : list (K * V)) : list (K * V) :=
  match m with
  | [] => [(k, v)]
  | (k', v') :: t => if decide (k = k') then (k, v) :: t else (k', v') :: assoc_set k v t
  end.

(** [m.delete(k)] *)
Definition assoc_delete (k : K) (m : list (K * V)) : list (K * V) :=
  List.filter (fun kv => negb (bool_decide (kv.1 = k))) m.
End Assoc.

(** [set.add(x)] and [set.delete(x)] on a JS [Set] *)
Definition set_add (x : nat) (l : list nat) : list nat :=
  if bool_decide (x ∈ l) then l else l ++ [x].
Definition set_delete (x : nat) (l : list nat) : list nat :=
  List.filter (fun y => negb (bool_decide (y = x))) l.

(** ** Payload numbers *)

Inductive jsnum :=
| JFinite (q : Q)
| JNaN
| JInfinity
| JNegInfinity.

(** ** Data model *)

Definition ROLE_CATALOG : list string :=
  ["pablo"; "martinez"; "blanco"; "churchill"; "doctor"; "moreno"; "benaparte"; "citizen"].

Record Peer := {
  p_id : nat;
  p_ws : nat;                 (* the peer's socket *)
  p_name : string;
  p_role : option string;     (* null until START_GAME *)
  p_alive : bool
}.

Record Settings := {
  maxPlayers : Q;
  roleCatalog : list string;
  roleCounts : list (string * Z)
}.

Record Room := {
  r_id : string;
  hostId : option nat;
  phase : string;
  day : nat;
  clients : list nat;                (* Set<WebSocket> *)
  peers : list (nat * Peer);         (* Map<ws.id, peer> *)
  settings : Settings
}.

Record Conn := {
  ws_id : nat;
  ws_roomId : option string;
  ws_name : option string
}.

Record State := {
  rooms : gmap string nat;   (* roomId -> room object *)
  heap : gmap nat Room;      (* room objects *)
  conns : gmap nat Conn;     (* open sockets *)
  next_conn : nat;           (* uuidv4(): ids are never reused *)
  next_ref : nat
}.

Definition init : State :=
  {| rooms := ∅; heap := ∅; conns := ∅; next_conn := 0; next_ref := 0 |}.

(** Field updates *)
Definition room_with_members (R : Room) (cs : list nat) (ps : list (nat * Peer)) : Room :=
  {| r_id := r_id R; hostId := hostId R; phase := phase R; day := day R;
     clients := cs; peers := ps; settings := settings R |}.
Definition room_with_host (R : Room) (h : option nat) : Room :=
  {| r_id := r_id R; hostId := h; phase := phase R; day := day R;
     clients := clients R; peers := peers R; settings := settings R |}.
Definition room_with_settings (R : Room) (st : Settings) : Room :=
  {| r_id := r_id R; hostId := hostId R; phase := phase R; day := day R;
     clients := clients R; peers := peers R; settings := st |}.
Definition room_with_game (R : Room) (ph : string) (d : nat) (ps : list (nat * Peer)) : Room :=
  {| r_id := r_id R; hostId := hostId R; phase := ph; day := d;
     clients := clients R; peers := ps; settings := settings R |}.
Definition conn_with_room (w : Conn) (k : option string) : Conn :=
  {| ws_id := ws_id w; ws_roomId := k; ws_name := ws_name w |}.
Definition conn_with_name (w : Conn) (n : option string) : Conn :=
  {| ws_id := ws_id w; ws_roomId := ws_roomId w; ws_name := n |}.
Definition peer_with_name (p : Peer) (n : string) : Peer :=
  {| p_id := p_id p; p_ws := p_ws p; p_name := n; p_role := p_role p; p_alive := p_alive p |}.

Definition set_heap (s : State) (ref : nat) (R : Room) : State :=
  {| rooms := rooms s; heap := <[ref := R]> (heap s); conns := conns s;
     next_conn := next_conn s; next_ref := next_ref s |}.
Definition set_conn (s : State) (c : nat) (w : Conn) : State :=
  {| rooms := rooms s; heap := heap s; conns := <[c := w]> (conns s);
     next_conn := next_conn s; next_ref := next_ref s |}.
Definition set_rooms (s : State) (rs : gmap string nat) : State :=
  {| rooms := rs; heap := heap s; conns := conns s;
     next_conn := next_conn s; next_ref := next_ref s |}.
Definition set_conns (s : State) (cs : gmap nat Conn) : State :=
  {| rooms := rooms s; heap := heap s; conns := cs;
     next_conn := next_conn s; next_ref := next_ref s |}.

(** ** Outbound messages *)

Record PeerView := { pv_id : nat; pv_name : string; pv_alive : bool }.

Record Snapshot := {
  sn_roomId : string;
  sn_hostId : option nat;
  sn_phase : string;
  sn_day : nat;
  sn_peers : list PeerView;
  sn_settings : Settings
}.

Inductive Out :=
| Hello (id : nat)
| RoomCreated (roomId : string) (host : option nat)
| Joined (roomId : string) (host : option nat)
| PeerJoined (id : nat)
| PeerLeft (id : nat)
| RoomStateMsg (st : Snapshot)
| NameSet (name : string)
| ErrorMsg (message : string)
| PrivateRole (role : option string)
| Pong.

(** [roomState] (lines 233-248) *)
Definition peer_view (p : Peer) : PeerView :=
  {| pv_id := p_id p;
     pv_name := if String.eqb (p_name p) "" then "—" else p_name p;
     pv_alive := p_alive p |}.

Definition roomState (R : Room) : Snapshot :=
  {| sn_roomId := r_id R; sn_hostId := hostId R; sn_phase := phase R; sn_day := day R;
     sn_peers := map (fun kp => peer_view kp.2) (peers R);
     sn_settings := settings R |}.

(** [send] (lines 214-216) and [broadcast] (lines 218-220) *)
Definition send (s : State) (c : nat) (m : Out) : list (nat * Out) :=
  match conns s !! c with Some _ => [(c, m)] | None => [] end.

Definition broadcast (s : State) (R : Room) (m : Out) : list (nat * Out) :=
  flat_map (fun c => send s c m) (clients R).

(** ** Room codes *)

Definition ascii_upper (a : Ascii.ascii) : Ascii.ascii :=
  let n := Ascii.nat_of_ascii a in
  if (97 <=? n)%nat && (n <=? 122)%nat then Ascii.ascii_of_nat (n - 32)%nat else a.

(** [toUpperCase] on the base-36 text of a number (digits, letters, '.') *)
Fixpoint to_upper (s : string) : string :=
  match s with
  | EmptyString => EmptyString
  | String a t => String (ascii_upper a) (to_upper t)
  end.

(** [genRoomId] (line 222): [rnd36] is [Math.random().toString(36)] *)
Definition genRoomId (rnd36 : string) : string :=
  to_upper (String.substring 2 6 rnd36).

(** JS truthiness of [ws.roomId] (null, undefined and "" are falsy) *)
Definition truthy (o : option string) : bool :=
  match o with Some k => negb (String.eqb k "") | None => false end.

(** [x || d] on a nullable string *)
Definition or_default (o : option string) (d : string) : string :=
  match o with Some n => if String.eqb n "" then d else n | None => d end.

(** [rooms.get(ws.roomId)] *)
Definition lookup_room (s : State) (k : option string) : option (nat * Room) :=
  match k with
  | Some k =>
      match rooms s !! k with
      | Some ref => match heap s !! ref with Some R => Some (ref, R) | None => None end
      | None => None
      end
  | None => None
  end.

(** ** [leaveRoom] (lines 250-269) *)

(** the room object after removing the socket, with host re-election *)
Definition leave_room_obj (c : nat) (R : Room) : Room :=
  let R1 := room_with_members R (set_delete c (clients R)) (assoc_delete c (peers R)) in
  if bool_decide (hostId R = Some c) then room_with_host R1 (head (map fst (peers R1)))
  else R1.

Definition leaveRoom (c : nat) (s : State) : State * list (nat * Out) :=
  match conns s !! c with
  | None => (s, [])
  | Some w =>
      if negb (truthy (ws_roomId w)) then (s, []) else
      let s1 := set_conn s c (conn_with_room w None) in
      match lookup_room s1 (ws_roomId w) with
      | None => (s1, [])
      | Some (ref, R) =>
          let R' := leave_room_obj c R in
          let s2 := set_heap s1 ref R' in
          let outs := broadcast s2 R' (PeerLeft c)
                      ++ broadcast s2 R' (RoomStateMsg (roomState R')) in
          match clients R' with
          | [] => (set_rooms s2 (delete (r_id R') (rooms s2)), outs)
          | _ => (s2, outs)
          end
      end
  end.

(** ** CREATE_ROOM (lines 288-320) *)

Definition defaultCounts : list (string * Z) :=
  assoc_set "citizen" 1%Z (fold_left (fun o r => assoc_set r 0%Z o) ROLE_CATALOG []).

Definition on_create (c : nat) (rnd36 : string) (s : State) : State * list (nat * Out) :=
  let '(s1, o1) := leaveRoom c s in
  match conns s1 !! c with
  | None => (s1, o1)
  | Some w =>
      let code := genRoomId rnd36 in
      let ref := next_ref s1 in
      let host := {| p_id := c; p_ws := c; p_name := or_default (ws_name w) "Host";
                     p_role := None; p_alive := false |} in
      let R := {| r_id := code; hostId := Some c; phase := "lobby"; day := 0;
                  clients := [c]; peers := [(c, host)];
                  settings := {| maxPlayers := 11; roleCatalog := ROLE_CATALOG;
                                 roleCounts := defaultCounts |} |} in
      let s2 := {| rooms := <[code := ref]> (rooms s1); heap := <[ref := R]> (heap s1);
                   conns := <[c := conn_with_room w (Some code)]> (conns s1);
                   next_conn := next_conn s1; next_ref := S ref |} in
      (s2, o1 ++ send s2 c (RoomCreated code (Some c))
              ++ broadcast s2 R (RoomStateMsg (roomState R)))
  end.

(** ** JOIN_ROOM (lines 323-340); [key] is [String(payload.roomId || "").toUpperCase()] *)

Definition on_join (c : nat) (key : string) (s : State) : State * list (nat * Out) :=
  match rooms s !! key with
  | None => (s, send s c (ErrorMsg "ROOM_NOT_FOUND"))
  | Some ref =>
      match heap s !! ref with
      | None => (s, [])
      | Some R =>
          if Qle_bool (maxPlayers (settings R)) (inject_Z (Z.of_nat (length (clients R))))
          then (s, send s c (ErrorMsg "ROOM_IS_FULL"))
          else
            let '(s1, o1) := leaveRoom c s in
            match heap s1 !! ref, conns s1 !! c with
            | Some R1, Some w =>
                let p := {| p_id := c; p_ws := c; p_name := or_default (ws_name w) "Guest";
                            p_role := None; p_alive := false |} in
                let R2 := room_with_members R1 (set_add c (clients R1)) (assoc_set c p (peers R1)) in
                let s2 := set_conn (set_heap s1 ref R2) c (conn_with_room w (Some (r_id R2))) in
                (s2, o1 ++ send s2 c (Joined (r_id R2) (hostId R2))
                        ++ broadcast s2 R2 (PeerJoined c)
                        ++ broadcast s2 R2 (RoomStateMsg (roomState R2)))
            | _, _ => (s1, o1)
            end
      end
  end.

(** ** SET_NAME (lines 343-356); [name] is [(payload?.name || "").toString().slice(0, 24).trim()] *)

Definition on_set_name (c : nat) (name : string) (s : State) : State * list (nat * Out) :=
  match conns s !! c with
  | None => (s, [])
  | Some w =>
      let nm := if String.eqb name "" then
                  (if String.eqb (or_default (ws_name w) "") "" then None else ws_name w)
                else Some name in
      let w' := conn_with_name w nm in
      let s1 := set_conn s c w' in
      if truthy (ws_roomId w') then
        match lookup_room s1 (ws_roomId w') with
        | None => (s1, [])
        | Some (ref, R) =>
            let R' := match assoc_get c (peers R) with
                      | Some p => room_with_members R (clients R)
                                    (assoc_set c (peer_with_name p (or_default nm (p_name p))) (peers R))
                      | None => R
                      end in
            let s2 := set_heap s1 ref R' in
            (s2, broadcast s2 R' (RoomStateMsg (roomState R')))
        end
      else (s1, send s1 c (NameSet (or_default nm "")))
  end.

(** ** UPDATE_SETTINGS (lines 359-369) *)

Definition on_update_settings (c : nat) (n : jsnum) (s : State) : State * list (nat * Out) :=
  match conns s !! c with
  | None => (s, [])
  | Some w =>
      match lookup_room s (ws_roomId w) with
      | None => (s, [])
      | Some (ref, R) =>
          if negb (bool_decide (hostId R = Some c)) then (s, send s c (ErrorMsg "ONLY_HOST")) else
          let R' := match n with
                    | JFinite q =>
                        room_with_settings R
                          {| maxPlayers := Qmax 3 (Qmin 20 q);
                             roleCatalog := roleCatalog (settings R);
                             roleCounts := roleCounts (settings R) |}
                    | _ => R
                    end in
          let s1 := set_heap s ref R' in
          (s1, broadcast s1 R' (RoomStateMsg (roomState R')))
      end
  end.

(** ** UPDATE_ROLE_COUNTS (lines 373-395) *)

(** [let v = Number(counts[r]); if (!Number.isFinite(v) || v < 0) v = 0;
     Math.min(50, Math.floor(v))] *)
Definition count_value (v : jsnum) : Z :=
  let v' := match v with
            | JFinite q => if Qle_bool 0 q then q else 0%Q
            | _ => 0%Q
            end in
  Z.min 50 (Qfloor v').

(** [next] built from the payload's keys (in [Object.keys] order), then the
    missing catalog roles filled with 0. No catalog role is a property of
    [Object.prototype], so [r in next] is an own-key test. *)
Definition next_counts (catalog : list string) (counts : list (string * jsnum)) : list (string * Z) :=
  let next := fold_left (fun nx (rv : string * jsnum) =>
                if bool_decide (rv.1 ∈ catalog) then assoc_set rv.1 (count_value rv.2) nx else nx)
                counts [] in
  fold_left (fun nx r => match assoc_get r nx with Some _ => nx | None => assoc_set r 0%Z nx end)
    catalog next.

Definition on_update_role_counts (c : nat) (counts : list (string * jsnum)) (s : State)
  : State * list (nat * Out) :=
  match conns s !! c with
  | None => (s, [])
  | Some w =>
      match lookup_room s (ws_roomId w) with
      | None => (s, [])
      | Some (ref, R) =>
          if negb (bool_decide (hostId R = Some c)) then (s, send s c (ErrorMsg "ONLY_HOST")) else
          let st := settings R in
          let R' := room_with_settings R
                      {| maxPlayers := maxPlayers st; roleCatalog := roleCatalog st;
                         roleCounts := next_counts (roleCatalog st) counts |} in
          let s1 := set_heap s ref R' in
          (s1, broadcast s1 R' (RoomStateMsg (roomState R')))
      end
  end.

(** ** START_GAME (lines 398-431) *)

(** the pool built by counts, in catalog order (lines 409-413) *)
Definition build_pool (catalog : list string) (counts : list (string * Z)) : list string :=
  flat_map (fun r => repeat r (Z.to_nat (Z.max 0 (default 0%Z (assoc_get r counts))))) catalog.

(** [while (pool.length < n) pool.push("citizen")]; each round adds one
    entry, so [n] rounds suffice *)
Fixpoint pad_loop (fuel n : nat) (pool : list string) : list string :=
  match fuel with
  | O => pool
  | S f => if length pool <? n then pad_loop f n (pool ++ ["citizen"]) else pool
  end.

Definition fill_pool (n : nat) (pool : list string) : list string :=
  let pool1 := match pool with [] => ["citizen"] | _ => pool end in
  pad_loop n n pool1.

(** [[a[i], a[j]] = [a[j], a[i]]]; [j] is always in [0, i] *)
Definition swap (i j : nat) (a : list string) : list string :=
  match a !! i, a !! j with
  | Some ai, Some aj => <[j := ai]> (<[i := aj]> a)
  | _, _ => a
  end.

(** [shuffle] (lines 224-231): [draw i] is [(Math.random() * (i + 1)) | 0]
    in the round for index [i] *)
Fixpoint shuffle_loop (draw : nat -> nat) (i : nat) (a : list string) : list string :=
  match i with
  | O => a
  | S i' => shuffle_loop draw i' (swap i (draw i) a)
  end.

Definition shuffle (draw : nat -> nat) (a : list string) : list string :=
  shuffle_loop draw (length a - 1) a.

Definition role_pool (draw : nat -> nat) (n : nat) (st : Settings) : list string :=
  take n (shuffle draw (fill_pool n (build_pool (roleCatalog st) (roleCounts st)))).

(** [peers.forEach((p, i) => { p.role = pool[i]; p.alive = true; ... })] *)
Fixpoint assign_from (i : nat) (pool : list string) (ps : list (nat * Peer)) : list (nat * Peer) :=
  match ps with
  | [] => []
  | (k, p) :: t =>
      (k, {| p_id := p_id p; p_ws := p_ws p; p_name := p_name p;
             p_role := pool !! i; p_alive := true |}) :: assign_from (S i) pool t
  end.

Definition on_start_game (c : nat) (draw : nat -> nat) (s : State) : State * list (nat * Out) :=
  match conns s !! c with
  | None => (s, [])
  | Some w =>
      match lookup_room s (ws_roomId w) with
      | None => (s, [])
      | Some (ref, R) =>
          if negb (bool_decide (hostId R = Some c)) then (s, send s c (ErrorMsg "ONLY_HOST_CAN_START"))
          else if negb (String.eqb (phase R) "lobby") then (s, send s c (ErrorMsg "ALREADY_STARTED"))
          else if length (peers R) <? 3 then (s, send s c (ErrorMsg "NEED_AT_LEAST_3_PLAYERS"))
          else
            let pool := role_pool draw (length (peers R)) (settings R) in
            let ps := assign_from 0 pool (peers R) in
            let R' := room_with_game R "night" 1 ps in
            let s1 := set_heap s ref R' in
            (s1, flat_map (fun kp => send s1 (p_ws kp.2) (PrivateRole (p_role kp.2))) ps
                 ++ broadcast s1 R' (RoomStateMsg (roomState R')))
      end
  end.

(** ** Dispatch and events *)

Inductive Msg :=
| CREATE_ROOM (rnd36 : string)
| JOIN_ROOM (key : string)
| SET_NAME (name : string)
| UPDATE_SETTINGS (n : jsnum)
| UPDATE_ROLE_COUNTS (counts : list (string * jsnum))
| START_GAME (draw : nat -> nat)
| PING
| OTHER.   (* any other type, and unparsable input: dropped *)

Inductive Event :=
| Connect
| Message (c : nat) (m : Msg)
| Close (c : nat).

Definition dispatch (c : nat) (m : Msg) (s : State) : State * list (nat * Out) :=
  match m with
  | CREATE_ROOM rnd36 => on_create c rnd36 s
  | JOIN_ROOM key => on_join c key s
  | SET_NAME name => on_set_name c name s
  | UPDATE_SETTINGS n => on_update_settings c n s
  | UPDATE_ROLE_COUNTS counts => on_update_role_counts c counts s
  | START_GAME draw => on_start_game c draw s
  | PING => (s, send s c Pong)
  | OTHER => (s, [])
  end.

(** A connection gets a fresh id and [hello]; messages arrive only on open
    sockets; on close the socket is no longer open and [leaveRoom] runs
    (its broadcasts go to the remaining clients). *)
Definition step (s : State) (e : Event) : State * list (nat * Out) :=
  match e with
  | Connect =>
      let c := next_conn s in
      let s1 := {| rooms := rooms s; heap := heap s;
                   conns := <[c := {| ws_id := c; ws_roomId := None; ws_name := None |}]> (conns s);
                   next_conn := S c; next_ref := next_ref s |} in
      (s1, send s1 c (Hello c))
  | Message c m =>
      match conns s !! c with
      | None => (s, [])
      | Some _ => dispatch c m s
      end
  | Close c =>
      match conns s !! c with
      | None => (s, [])
      | Some _ => let '(s1, o) := leaveRoom c s in (set_conns s1 (delete c (conns s1)), o)
      end
  end.

Inductive reachable : State -> Prop :=
| reach_init : reachable init
| reach_step s e : reachable s -> reachable (step s e).1.

Fixpoint run (s : State) (es : list Event) : State * list (nat * Out) :=
  match es with
  | [] => (s, [])
  | e :: t => let '(s1, o1) := step s e in let '(s2, o2) := run s1 t in (s2, o1 ++ o2)
  end.

(** Error classes of the spec's taxonomy (section 7), for the codes the
    handlers send. *)
Inductive ErrorClass := NOT_FOUND | AUTHORIZATION | VALIDATION | STATE_CONFLICT | CAPACITY | UNCLASSIFIED.

Definition error_class (code : string) : ErrorClass :=
  if String.eqb code "ROOM_NOT_FOUND" then NOT_FOUND
  else if String.eqb code "ONLY_HOST" then AUTHORIZATION
  else if String.eqb code "ONLY_HOST_CAN_START" then AUTHORIZATION
  else if String.eqb code "NEED_AT_LEAST_3_PLAYERS" then VALIDATION
  else if String.eqb code "ALREADY_STARTED" then STATE_CONFLICT
  else if String.eqb code "ROOM_IS_FULL" then CAPACITY
  else UNCLASSIFIED.

(** ** Validity of role counts *)

Definition counts_ok (catalog : list string) (counts : list (string * Z)) : Prop :=
  List.NoDup (map fst counts) /\
  (forall r, In r (map fst counts) <-> In r catalog) /\
  (forall r v, In (r, v) counts -> (0 <= v <= 50)%Z).

(** A two-player room: host 0 and guest 1 in room "ABC123". *)
Definition s_two : State :=
  (run init [Connect; Connect; Message 0 (CREATE_ROOM "0.abc123xyz");
             Message 1 (JOIN_ROOM "ABC123")]).1.

(** ** Invariants, the spec-worded pool and scenarios *)

Definition first_fold (catalog : list string) :=
  fun nx (rv : string * jsnum) =>
    if bool_decide (rv.1 ∈ catalog) then assoc_set rv.1 (count_value rv.2) nx else nx.

Definition fill_fold :=
  fun nx (r : string) => match assoc_get r nx with Some _ => nx | None => assoc_set r 0%Z nx end.

Definition settings_ok (st : Settings) : Prop :=
  roleCatalog st = ROLE_CATALOG /\ counts_ok ROLE_CATALOG (roleCounts st).

Definition heap_ok (s : State) : Prop :=
  forall x R, heap s !! x = Some R -> settings_ok (settings R).

Definition no_role (m : Out) : Prop :=
  match m with PrivateRole _ => False | _ => True end.

(** Any reassignment of the peers' roles. *)
Definition with_roles (f : nat -> option string) (R : Room) : Room :=
  room_with_members R (clients R)
    (map (fun kp => (kp.1, {| p_id := p_id kp.2; p_ws := p_ws kp.2; p_name := p_name kp.2;
                              p_role := f kp.1; p_alive := p_alive kp.2 |})) (peers R)).

(** The end-to-end scenario of the spec: host 0 and guests 1 and 2 in room
    "ABC123", counts set to pablo:1, citizen:2. *)
Definition s_three : State :=
  (run init [Connect; Connect; Connect; Message 0 (CREATE_ROOM "0.abc123xyz");
             Message 1 (JOIN_ROOM "ABC123"); Message 2 (JOIN_ROOM "ABC123");
             Message 0 (UPDATE_ROLE_COUNTS [("pablo", JFinite 1); ("citizen", JFinite 2)])]).1.

(** The assignment pool in the words of the spec (section 4.3): each
    catalog role repeated roleCounts[role] times in catalog order, one
    "citizen" if that is empty, then "citizen" until the length is at
    least [n]. *)
Definition spec_pool (n : nat) (st : Settings) : list string :=
  let base := flat_map (fun r => repeat r (Z.to_nat (default 0%Z (assoc_get r (roleCounts st)))))
                (roleCatalog st) in
  let seeded := match base with [] => ["citizen"] | _ => base end in
  seeded ++ repeat "citizen" (n - length seeded).

(** [c] is in the room: among its clients or its peers *)
Definition member (R : Room) (c : nat) : Prop :=
  In c (clients R) \/ In c (map fst (peers R)).

(** Every registry entry names a room object stored under the room's own
    id; every member of a room registered under a non-empty id is an open
    socket whose [roomId] is that id; clients and peer keys coincide;
    socket ids and object references are below their counters. *)
Definition inv (s : State) : Prop :=
  (forall k ref, rooms s !! k = Some ref -> exists R, heap s !! ref = Some R /\ r_id R = k) /\
  (forall k ref R c, rooms s !! k = Some ref -> heap s !! ref = Some R -> k <> "" -> member R c ->
     exists w, conns s !! c = Some w /\ ws_roomId w = Some k) /\
  (forall k ref R c, rooms s !! k = Some ref -> heap s !! ref = Some R ->
     (In c (clients R) <-> In c (map fst (peers R)))) /\
  (forall c w, conns s !! c = Some w -> c < next_conn s) /\
  (forall ref R, heap s !! ref = Some R -> ref < next_ref s).

(** the guest [1] of [s_two] closes its socket *)
Definition s_two_closed : State := (step s_two (Close 1)).1.

(** another socket creates a room whose code collides with the live room "ABC123" *)
Definition s_collide : State :=
  (run s_two [Connect; Message 2 (CREATE_ROOM "0.abc123xyz")]).1.

(** [Math.random()] returned 0: its base-36 text is "0" and the room id is "" *)
Definition s_empty_code : State :=
  (run init [Connect; Message 0 (CREATE_ROOM "0");
            Connect; Message 1 (CREATE_ROOM "0.abc123xyz");
            Message 0 (JOIN_ROOM "ABC123")]).1.

(** the host of a room with no other member, before it closes *)
Definition s_host_alone : State :=
  (run init [Connect; Message 0 (CREATE_ROOM "0.abc123xyz")]).1.

(** Modelled from the spec: the PhaseTimer of section 4.4 (no timer code is
    in the embedded server). [start] replaces any timer with one holding
    [remainingMs = durationMs] and [running = true]; a tick, only while the
    timer runs and the room is not paused, takes 1000 off [remainingMs]
    floored at 0 (truncated subtraction on [nat]) and clears [running] when
    it reaches 0; pause and resume set the room-level [paused] flag. *)
Module PhaseTimer.
Record Timer := { remainingMs : nat; running : bool; label : string }.
Record TState := { timer : option Timer; paused : bool }.

Inductive TEvent :=
| TStart (durationMs : nat) (ph : string)
| TTick
| TPause
| TResume.

Definition tidle : TState := {| timer := None; paused := false |}.

Definition tick (t : Timer) : Timer :=
  let r := remainingMs t - 1000 in
  {| remainingMs := r; running := if Nat.eqb r 0 then false else running t; label := label t |}.

Definition tstep (s : TState) (e : TEvent) : TState :=
  match e with
  | TStart d ph => {| timer := Some {| remainingMs := d; running := true; label := ph |};
                      paused := paused s |}
  | TTick =>
      match timer s with
      | Some t => if running t && negb (paused s) then {| timer := Some (tick t); paused := paused s |}
                  else s
      | None => s
      end
  | TPause => {| timer := timer s; paused := true |}
  | TResume => {| timer := timer s; paused := false |}
  end.

Definition trun (s : TState) (es : list TEvent) : TState := fold_left tstep es s.

(** [(remainingMs, running)] of the current timer *)
Definition view (s : TState) : option (nat * bool) :=
  match timer s with Some t => Some (remainingMs t, running t) | None => None end.

(** every [start] of the sequence has a positive duration *)
Definition positive_starts (es : list TEvent) : bool :=
  forallb (fun e => match e with TStart d _ => Nat.ltb 0 d | _ => true end) es.

Definition zero_stops (s : TState) : Prop :=
  forall t, timer s = Some t -> remainingMs t = 0 -> running t = false.
End PhaseTimer.

(** every room the registry names has a host, who is one of its peers *)
Definition host_ok (rs : gmap string nat) (hp : gmap nat Room) : Prop :=
  forall k ref R, rs !! k = Some ref -> hp !! ref = Some R ->
  exists h, hostId R = Some h /\ In h (map fst (peers R)).

(** the game state of a room object: in the lobby at day 0 with no peer
    holding a role or alive, or at night on day 1 with each peer either
    holding a role and alive or holding none and not alive *)
Definition game_ok (R : Room) : Prop :=
  (phase R = "lobby" /\ day R = 0 /\
   Forall (fun kp => p_role kp.2 = None /\ p_alive kp.2 = false) (peers R)) \/
  (phase R = "night" /\ day R = 1 /\
   Forall (fun kp => (is_Some (p_role kp.2) /\ p_alive kp.2 = true) \/
                     (p_role kp.2 = None /\ p_alive kp.2 = false)) (peers R)).

Definition games_ok (hp : gmap nat Room) : Prop :=
  forall x R, hp !! x = Some R -> game_ok R.

(** The per-room shape kept by every handler: [maxPlayers] within [[3, 20]],
    and no socket listed twice among the clients or among the peers. *)
Definition room_shape (R : Room) : Prop :=
  ((3 <= maxPlayers (settings R))%Q /\ (maxPlayers (settings R) <= 20)%Q) /\
  List.NoDup (clients R) /\ List.NoDup (map fst (peers R)).

Definition shapes_ok (hp : gmap nat Room) : Prop :=
  forall x R, hp !! x = Some R -> room_shape R.

(** ** The role-pool variants ([src/server.js] lines 1-190, [src/unnamed/part_000]) *)

(** UPDATE_ROLE_POOL with [enabledRoles] (part_000 lines 24-29 and 301-306):
    [input.forEach(r => { if (catalogSet.has(r) && !filtered.includes(r)) filtered.push(r); })] *)
Definition filter_enabled (catalog input : list string) : list string :=
  fold_left (fun filtered r =>
    if bool_decide (r ∈ catalog) && negb (bool_decide (r ∈ filtered)) then filtered ++ [r]
    else filtered) input [].

(** what the handler does after the host check: the error it sends, or the
    new [settings.enabledRoles] *)
Definition update_enabled_roles (catalog input : list string) : string + list string :=
  let filtered := filter_enabled catalog input in
  if length filtered <? 3 then inl "ROLE_POOL_TOO_SMALL" else inr filtered.

(** The deal of these variants' START_GAME (server.js lines 149-151,
    part_000 lines 51-54 and 324-327): [let pool = shuffle(base);
    while (pool.length < n) pool.push("citizen"); shuffle(pool).slice(0, n)],
    where [base] is [settings.rolePool] or [settings.enabledRoles]. *)
Definition deal (draw1 draw2 : nat -> nat) (n : nat) (base : list string) : list string :=
  take n (shuffle draw2 (pad_loop n n (shuffle draw1 base))).

(** ** The minimal server ([src/unnamed/part_001]) *)

Module Minimal.







End Minimal.

(** ** The first server of [src/server.js] (lines 1-190) *)

Module V1.

(** a peer is [{ id, ws, name?, role?, alive? }], keyed by [ws.id]; [id] and
    [ws] are those of the key's socket *)
Record V1Peer := { v_name : option string; v_role : option string; v_alive : option bool }.

Record V1Room := {
  v_id : string;
  v_hostId : nat;
  v_phase : string;
  v_day : nat;
  v_clients : list nat;
  v_peers : list (nat * V1Peer);
  v_maxPlayers : Q;
  v_rolePool : list string
}.

(** [v_conns]: the open sockets with their [ws.roomId] (None while undefined).
    Rooms are only reached through [rooms.get(code)], so the map holds the
    room objects themselves. *)
Record V1State := {
  v_rooms : gmap string V1Room;
  v_conns : gmap nat (option string);
  v_next : nat
}.

Definition v1_init : V1State := {| v_rooms := ∅; v_conns := ∅; v_next := 0 |}.

Definition default_pool : list string :=
  ["pablo"; "juan"; "blanco"; "churchill"; "doctor"; "moreno"; "martinez"; "bonaparte";
   "chaplin"; "citizen"; "citizen"].

Record V1Snap := {
  sv_phase : string;
  sv_day : nat;
  sv_maxPlayers : Q;
  sv_rolePool : list string;
  sv_peers : list (nat * string * bool)
}.

(** [roomState] (lines 43-48): [{ id, name: p.name || "", alive: p.alive !== false }] *)
Definition v1_roomState (R : V1Room) : V1Snap :=
  {| sv_phase := v_phase R; sv_day := v_day R; sv_maxPlayers := v_maxPlayers R;
     sv_rolePool := v_rolePool R;
     sv_peers := map (fun kp => (kp.1, or_default (v_name kp.2) "",
                                 negb (bool_decide (v_alive kp.2 = Some false)))) (v_peers R) |}.

Inductive V1Out :=
| V1Hello (id : nat)
| V1RoomCreated (k : string) (h : nat)
| V1RoomState (st : V1Snap)
| V1Joined (k : string) (h : nat)
| V1PeerJoined (id : nat)
| V1PeerLeft (id : nat)
| V1Error (msg : string)
| V1PrivateRole (role : option string)
| V1Pong.

Definition v1_send (s : V1State) (c : nat) (m : V1Out) : list (nat * V1Out) :=
  match v_conns s !! c with Some _ => [(c, m)] | None => [] end.

Definition v1_broadcast (s : V1State) (R : V1Room) (m : V1Out) (except : option nat) : list (nat * V1Out) :=
  flat_map (fun c => if bool_decide (Some c = except) then [] else v1_send s c m) (v_clients R).

Definition with_members (R : V1Room) (cs : list nat) (ps : list (nat * V1Peer)) : V1Room :=
  {| v_id := v_id R; v_hostId := v_hostId R; v_phase := v_phase R; v_day := v_day R;
     v_clients := cs; v_peers := ps; v_maxPlayers := v_maxPlayers R; v_rolePool := v_rolePool R |}.
Definition with_max (R : V1Room) (q : Q) : V1Room :=
  {| v_id := v_id R; v_hostId := v_hostId R; v_phase := v_phase R; v_day := v_day R;
     v_clients := v_clients R; v_peers := v_peers R; v_maxPlayers := q; v_rolePool := v_rolePool R |}.
Definition with_pool (R : V1Room) (pool : list string) : V1Room :=
  {| v_id := v_id R; v_hostId := v_hostId R; v_phase := v_phase R; v_day := v_day R;
     v_clients := v_clients R; v_peers := v_peers R; v_maxPlayers := v_maxPlayers R;
     v_rolePool := pool |}.
Definition with_game (R : V1Room) (ps : list (nat * V1Peer)) : V1Room :=
  {| v_id := v_id R; v_hostId := v_hostId R; v_phase := "night"; v_day := 1;
     v_clients := v_clients R; v_peers := ps; v_maxPlayers := v_maxPlayers R;
     v_rolePool := v_rolePool R |}.
Definition with_rooms (s : V1State) (rs : gmap string V1Room) : V1State :=
  {| v_rooms := rs; v_conns := v_conns s; v_next := v_next s |}.

(** [rooms.get(ws.roomId)] *)
Definition v1_room (s : V1State) (c : nat) : option (string * V1Room) :=
  match v_conns s !! c with
  | Some (Some k) => match v_rooms s !! k with Some R => Some (k, R) | None => None end
  | _ => None
  end.

(** [peers.forEach((p, i) => { p.role = roles[i]; p.alive = true; })] *)
Fixpoint v1_assign (i : nat) (roles : list string) (ps : list (nat * V1Peer)) : list (nat * V1Peer) :=
  match ps with
  | [] => []
  | (k, p) :: t => (k, {| v_name := v_name p; v_role := roles !! i; v_alive := Some true |})
                   :: v1_assign (S i) roles t
  end.

(** The payload, already converted as the handlers do: [rnd36] is
    [Math.random().toString(36)], [key] is [payload.roomId], [raw] is
    [String(payload.name || "").trim().slice(0, 24)], [pool] is
    [payload.rolePool.map(String)] (or [[]]), and [draw1], [draw2] are the
    draws of the two shuffles. *)
Inductive V1Msg :=
| V1_CREATE_ROOM (rnd36 : string)
| V1_JOIN_ROOM (key : string)
| V1_SET_NAME (raw : string)
| V1_UPDATE_SETTINGS (n : jsnum)
| V1_UPDATE_ROLE_POOL (pool : list string)
| V1_START_GAME (draw1 draw2 : nat -> nat)
| V1_PING
| V1_OTHER.

Inductive V1Event :=
| V1Connect
| V1Message (c : nat) (m : V1Msg)
| V1Close (c : nat).

(** the message handler (lines 56-167); [lower] is [String.prototype.toLowerCase] *)
Definition v1_dispatch (lower : string -> string) (c : nat) (m : V1Msg) (s : V1State)
  : V1State * list (nat * V1Out) :=
  match m with
  | V1_CREATE_ROOM rnd36 =>
      let k := genRoomId rnd36 in
      let R := {| v_id := k; v_hostId := c; v_phase := "lobby"; v_day := 0; v_clients := [c];
                  v_peers := [(c, {| v_name := None; v_role := None; v_alive := None |})];
                  v_maxPlayers := 11; v_rolePool := default_pool |} in
      let s1 := {| v_rooms := <[k := R]> (v_rooms s); v_conns := <[c := Some k]> (v_conns s);
                   v_next := v_next s |} in
      (s1, v1_send s1 c (V1RoomCreated k c) ++ v1_send s1 c (V1RoomState (v1_roomState R)))
  | V1_JOIN_ROOM key =>
      match v_rooms s !! key with
      | None => (s, v1_send s c (V1Error "ROOM_NOT_FOUND"))
      | Some R =>
          if Qle_bool (v_maxPlayers R) (inject_Z (Z.of_nat (length (v_clients R))))
          then (s, v1_send s c (V1Error "ROOM_FULL"))
          else
            let R' := with_members R (set_add c (v_clients R))
                        (assoc_set c {| v_name := None; v_role := None; v_alive := None |} (v_peers R)) in
            let s1 := {| v_rooms := <[key := R']> (v_rooms s);
                         v_conns := <[c := Some (v_id R')]> (v_conns s); v_next := v_next s |} in
            (s1, v1_send s1 c (V1Joined (v_id R') (v_hostId R'))
                 ++ v1_send s1 c (V1RoomState (v1_roomState R'))
                 ++ v1_broadcast s1 R' (V1PeerJoined c) (Some c))
      end
  | V1_SET_NAME raw =>
      match v1_room s c with
      | None => (s, [])
      | Some (k, R) =>
          if String.eqb raw "" then (s, v1_send s c (V1Error "NAME_REQUIRED")) else
          if existsb (fun kp => String.eqb (lower (or_default (v_name kp.2) "")) (lower raw)
                                && negb (Nat.eqb kp.1 c)) (v_peers R)
          then (s, v1_send s c (V1Error "NAME_TAKEN"))
          else
            let R' := match assoc_get c (v_peers R) with
                      | Some p => with_members R (v_clients R)
                                    (assoc_set c {| v_name := Some raw; v_role := v_role p;
                                                    v_alive := v_alive p |} (v_peers R))
                      | None => R
                      end in
            let s1 := with_rooms s (<[k := R']> (v_rooms s)) in
            (s1, v1_broadcast s1 R' (V1RoomState (v1_roomState R')) None)
      end
  | V1_UPDATE_SETTINGS n =>
      match v1_room s c with
      | None => (s, [])
      | Some (k, R) =>
          if negb (Nat.eqb (v_hostId R) c) then (s, v1_send s c (V1Error "ONLY_HOST")) else
          let R' := match n with JFinite q => with_max R (Qmax 3 (Qmin 20 q)) | _ => R end in
          let s1 := with_rooms s (<[k := R']> (v_rooms s)) in
          (s1, v1_broadcast s1 R' (V1RoomState (v1_roomState R')) None)
      end
  | V1_UPDATE_ROLE_POOL pool =>
      match v1_room s c with
      | None => (s, [])
      | Some (k, R) =>
          if negb (Nat.eqb (v_hostId R) c) then (s, v1_send s c (V1Error "ONLY_HOST")) else
          if length pool <? 3 then (s, v1_send s c (V1Error "ROLE_POOL_TOO_SMALL")) else
          let R' := with_pool R (take 30 pool) in
          let s1 := with_rooms s (<[k := R']> (v_rooms s)) in
          (s1, v1_broadcast s1 R' (V1RoomState (v1_roomState R')) None)
      end
  | V1_START_GAME draw1 draw2 =>
      match v1_room s c with
      | None => (s, [])
      | Some (k, R) =>
          if negb (Nat.eqb (v_hostId R) c) then (s, v1_send s c (V1Error "ONLY_HOST_CAN_START")) else
          if negb (String.eqb (v_phase R) "lobby") then (s, v1_send s c (V1Error "ALREADY_STARTED")) else
          if length (v_peers R) <? 3 then (s, v1_send s c (V1Error "NEED_AT_LEAST_3_PLAYERS")) else
          let roles := deal draw1 draw2 (length (v_peers R)) (v_rolePool R) in
          let ps := v1_assign 0 roles (v_peers R) in
          let R' := with_game R ps in
          let s1 := with_rooms s (<[k := R']> (v_rooms s)) in
          (s1, flat_map (fun kp => v1_send s1 kp.1 (V1PrivateRole (v_role kp.2))) ps
               ++ v1_broadcast s1 R' (V1RoomState (v1_roomState R')) None)
      end
  | V1_PING => (s, v1_send s c V1Pong)
  | V1_OTHER => (s, [])
  end.

(** connection (lines 50-53), messages of open sockets, and close (lines
    169-176): no host is chosen when the host leaves *)
Definition v1_step (lower : string -> string) (s : V1State) (e : V1Event) : V1State * list (nat * V1Out) :=
  match e with
  | V1Connect =>
      let c := v_next s in
      let s1 := {| v_rooms := v_rooms s; v_conns := <[c := None]> (v_conns s); v_next := S c |} in
      (s1, v1_send s1 c (V1Hello c))
  | V1Message c m =>
      match v_conns s !! c with
      | None => (s, [])
      | Some _ => v1_dispatch lower c m s
      end
  | V1Close c =>
      match v_conns s !! c with
      | None => (s, [])
      | Some rid =>
          let s0 := {| v_rooms := v_rooms s; v_conns := delete c (v_conns s); v_next := v_next s |} in
          match rid with
          | None => (s0, [])
          | Some k =>
              match v_rooms s !! k with
              | None => (s0, [])
              | Some R =>
                  let R' := with_members R (set_delete c (v_clients R)) (assoc_delete c (v_peers R)) in
                  let rs := match v_clients R' with
                            | [] => delete k (v_rooms s)
                            | _ => <[k := R']> (v_rooms s)
                            end in
                  (with_rooms s0 rs, v1_broadcast s0 R' (V1PeerLeft c) None)
              end
          end
      end
  end.

Fixpoint v1_run (lower : string -> string) (s : V1State) (es : list V1Event) : V1State :=
  match es with
  | [] => s
  | e :: t => v1_run lower (v1_step lower s e).1 t
  end.

Inductive v1_reachable (lower : string -> string) : V1State -> Prop :=
| v1_reach_init : v1_reachable lower v1_init
| v1_reach_step (s : V1State) (e : V1Event) :
    v1_reachable lower s -> v1_reachable lower (v1_step lower s e).1.

(** whether [e] is a CREATE_ROOM whose code is [k] *)
Definition creates_code (k : string) (e : V1Event) : bool :=
  match e with
  | V1Message _ (V1_CREATE_ROOM rnd36) => String.eqb (genRoomId rnd36) k
  | _ => false
  end.

End V1.

(** * Proofs *)

(** ** Association lists *)

Section AssocLemmas.
Context {K V : Type} `{EqDecision K}.

Lemma assoc_get_set (r k : K) (v : V) (m : list (K * V)) :
  assoc_get r (assoc_set k v m) = if decide (r = k) then Some v else assoc_get r m.
Proof.
  induction m as [|[k' v'] t IH]; simpl.
  - destruct (decide (r = k)); reflexivity.
  - destruct (decide (k = k')) as [->|Hne]; simpl.
    + destruct (decide (r = k')); reflexivity.
    + destruct (decide (r = k')) as [->|Hne']; simpl.
      * destruct (decide (k' = k)); [congruence | reflexivity].
      * exact IH.
Qed.

Lemma assoc_set_keys (r k : K) (v : V) (m : list (K * V)) :
  In r (map fst (assoc_set k v m)) <-> r = k \/ In r (map fst m).
Proof.
  induction m as [|[k' v'] t IH]; simpl; [intuition congruence|].
  destruct (decide (k = k')) as [->|Hne]; simpl; [intuition congruence|].
  rewrite IH. intuition congruence.
Qed.

Lemma assoc_set_NoDup (k : K) (v : V) (m : list (K * V)) :
  List.NoDup (map fst m) -> List.NoDup (map fst (assoc_set k v m)).
Proof.
  induction m as [|[k' v'] t IH]; simpl; intros Hnd.
  - constructor; [simpl; tauto | constructor].
  - inversion Hnd as [|? ? Hni Hnd']; subst.
    case_decide; subst; simpl; constructor; auto.
    rewrite assoc_set_keys. intros [->|Hin]; [done | tauto].
Qed.

Lemma assoc_set_in (r k : K) (x v : V) (m : list (K * V)) :
  In (r, x) (assoc_set k v m) -> (r = k /\ x = v) \/ In (r, x) m.
Proof.
  induction m as [|[k' v'] t IH]; simpl.
  - intros [H|[]]. inversion H; auto.
  - destruct (decide (k = k')) as [->|Hne]; simpl.
    + intros [Heq|Hin]; [inversion Heq; auto | auto].
    + intros [Heq|Hin]; [auto | destruct (IH Hin); auto].
Qed.

Lemma assoc_get_None (r : K) (m : list (K * V)) :
  assoc_get r m = None <-> ~ In r (map fst m).
Proof.
  induction m as [|[k' v'] t IH]; simpl; [tauto|].
  destruct (decide (r = k')) as [->|Hne]; [split; [discriminate | tauto]|].
  rewrite IH. intuition congruence.
Qed.
End AssocLemmas.

(** ** C5: START_GAME with fewer than three peers *)

(** C5: for a room in lobby with fewer than 3 peers, a START_GAME from the
    host leaves the whole server state unchanged and sends exactly one
    message, the ERROR "NEED_AT_LEAST_3_PLAYERS" (a VALIDATION-class code),
    to the requester only. *)
Theorem start_game_too_few_players (s : State) (c : nat) (w : Conn) (ref : nat) (R : Room)
    (draw : nat -> nat) :
  conns s !! c = Some w ->
  lookup_room s (ws_roomId w) = Some (ref, R) ->
  hostId R = Some c ->
  phase R = "lobby" ->
  length (peers R) < 3 ->
  step s (Message c (START_GAME draw)) = (s, [(c, ErrorMsg "NEED_AT_LEAST_3_PLAYERS")]) /\
  error_class "NEED_AT_LEAST_3_PLAYERS" = VALIDATION.
Proof.
  intros Hc Hr Hh Hp Hn. split; [|reflexivity].
  simpl. rewrite Hc. unfold on_start_game. rewrite Hc, Hr, Hh, Hp.
  rewrite bool_decide_eq_true_2 by done. simpl.
  apply Nat.ltb_lt in Hn. rewrite Hn. unfold send. rewrite Hc. reflexivity.
Qed.

Lemma start_game_too_few_players_witness :
  step s_two (Message 0 (START_GAME (fun _ => 0)))
    = (s_two, [(0, ErrorMsg "NEED_AT_LEAST_3_PLAYERS")]) /\
  error_class "NEED_AT_LEAST_3_PLAYERS" = VALIDATION.
Proof.
  eapply (start_game_too_few_players s_two 0 _ 0 _ (fun _ => 0));
    [reflexivity | reflexivity | reflexivity | reflexivity | vm_compute; lia].
Defined.

(** ** Generic facts about the step function *)

Lemma lookup_room_Some (s : State) (k : option string) (ref : nat) (R : Room) :
  lookup_room s k = Some (ref, R) ->
  exists k', k = Some k' /\ rooms s !! k' = Some ref /\ heap s !! ref = Some R.
Proof.
  unfold lookup_room. destruct k as [k|]; [|discriminate].
  destruct (rooms s !! k) as [r|] eqn:E1; [|discriminate].
  destruct (heap s !! r) as [R0|] eqn:E2; [|discriminate].
  intros H. inversion H; subst. eauto.
Qed.

(** [leaveRoom] only rewrites the room object it leaves, keeping its id
    and settings, and never opens or closes a socket. *)
Lemma leaveRoom_heap (c : nat) (s : State) (x : nat) (R : Room) :
  heap (leaveRoom c s).1 !! x = Some R ->
  exists R0, heap s !! x = Some R0 /\ settings R = settings R0 /\ r_id R = r_id R0.
Proof.
  unfold leaveRoom.
  destruct (conns s !! c) as [w|]; simpl; [|eauto].
  destruct (negb (truthy (ws_roomId w))); simpl; [eauto|].
  destruct (lookup_room _ _) as [[ref R1]|] eqn:Hl; simpl; [|eauto].
  apply lookup_room_Some in Hl as (k' & _ & _ & Hh). simpl in Hh.
  destruct (clients (leave_room_obj c R1)); simpl;
  (rewrite lookup_insert; case_decide; subst;
   [intros H; inversion H; subst; exists R1; split; [done|];
    unfold leave_room_obj; case_bool_decide; done
   | eauto]).
Qed.

Lemma leaveRoom_conns (c : nat) (s : State) (x : nat) :
  is_Some (conns (leaveRoom c s).1 !! x) <-> is_Some (conns s !! x).
Proof.
  unfold leaveRoom.
  destruct (conns s !! c) as [w|] eqn:Hc; simpl; [|done].
  destruct (negb (truthy (ws_roomId w))); simpl; [done|].
  assert (Hs : is_Some (<[c:=conn_with_room w None]> (conns s) !! x) <-> is_Some (conns s !! x)).
  { rewrite lookup_insert. case_decide; subst; [rewrite Hc|]; done. }
  destruct (lookup_room _ _) as [[ref R1]|]; simpl; [|done].
  destruct (clients (leave_room_obj c R1)); simpl; done.
Qed.

(** ** Role counts *)

Lemma count_value_bounds (v : jsnum) : (0 <= count_value v <= 50)%Z.
Proof.
  unfold count_value.
  assert (Hf : forall q, (0 <= q)%Q -> (0 <= Qfloor q)%Z).
  { intros q Hq. apply (Qfloor_resp_le 0 q) in Hq. exact Hq. }
  destruct v as [q| | |];
  try (pose proof (Hf 0%Q ltac:(discriminate)); lia).
  destruct (Qle_bool 0 q) eqn:E.
  - apply Qle_bool_iff in E. pose proof (Hf q E). lia.
  - pose proof (Hf 0%Q ltac:(discriminate)). lia.
Qed.

Lemma first_fold_props (catalog : list string) (l : list (string * jsnum)) (nx : list (string * Z)) :
  List.NoDup (map fst nx) ->
  (forall r v, In (r, v) nx -> (0 <= v <= 50)%Z) ->
  List.NoDup (map fst (fold_left (first_fold catalog) l nx)) /\
  (forall r v, In (r, v) (fold_left (first_fold catalog) l nx) -> (0 <= v <= 50)%Z) /\
  (forall r, In r (map fst (fold_left (first_fold catalog) l nx)) ->
             In r (map fst nx) \/ (In r catalog /\ In r (map fst l))).
Proof.
  revert nx. induction l as [|[r0 v0] t IH]; intros nx Hnd Hv; simpl; [auto|].
  unfold first_fold at 2 4 6. simpl.
  case_bool_decide as Hin.
  - destruct (IH (assoc_set r0 (count_value v0) nx)) as (H1 & H2 & H3).
    + by apply assoc_set_NoDup.
    + intros r v Hrv. apply assoc_set_in in Hrv as [[-> ->]|Hrv]; eauto using count_value_bounds.
    + refine (conj H1 (conj H2 _)). intros r Hr.
      destruct (H3 r Hr) as [Hr'|Hr']; [|tauto].
      apply assoc_set_keys in Hr' as [->|Hr']; [|tauto].
      right. split; [by apply list_elem_of_In | tauto].
  - destruct (IH nx Hnd Hv) as (H1 & H2 & H3). refine (conj H1 (conj H2 _)).
    intros r Hr. destruct (H3 r Hr); tauto.
Qed.

Lemma fill_fold_keep (l : list string) (nx : list (string * Z)) (r : string) (v : Z) :
  assoc_get r nx = Some v -> assoc_get r (fold_left fill_fold l nx) = Some v.
Proof.
  revert nx. induction l as [|a t IH]; intros nx H; simpl; [done|].
  apply IH. unfold fill_fold. destruct (assoc_get a nx) eqn:E; [done|].
  rewrite assoc_get_set. case_decide; subst; congruence.
Qed.

Lemma fill_fold_props (l : list string) (nx : list (string * Z)) :
  List.NoDup (map fst nx) ->
  (forall r v, In (r, v) nx -> (0 <= v <= 50)%Z) ->
  List.NoDup (map fst (fold_left fill_fold l nx)) /\
  (forall r v, In (r, v) (fold_left fill_fold l nx) -> (0 <= v <= 50)%Z) /\
  (forall r, In r (map fst (fold_left fill_fold l nx)) <-> In r (map fst nx) \/ In r l) /\
  (forall r, ~ In r (map fst nx) -> In r l -> assoc_get r (fold_left fill_fold l nx) = Some 0%Z).
Proof.
  revert nx. induction l as [|a t IH]; intros nx Hnd Hv; simpl.
  - refine (conj Hnd (conj Hv (conj _ _))); [tauto | intros _ _ []].
  - unfold fill_fold at 2 4 6 8. destruct (assoc_get a nx) as [va|] eqn:Ea.
    + assert (Ha : In a (map fst nx)).
      { destruct (In_dec String.string_dec a (map fst nx)) as [?|Hn]; [done|].
        apply assoc_get_None in Hn. congruence. }
      destruct (IH nx Hnd Hv) as (H1 & H2 & H3 & H4).
      refine (conj H1 (conj H2 (conj _ _))).
      * intros r. rewrite H3. intuition congruence.
      * intros r Hr [->|Hrt]; [contradiction | by apply H4].
    + destruct (IH (assoc_set a 0%Z nx)) as (H1 & H2 & H3 & H4).
      * by apply assoc_set_NoDup.
      * intros r v Hrv. apply assoc_set_in in Hrv as [[-> ->]|Hrv]; [lia | eauto].
      * refine (conj H1 (conj H2 (conj _ _))).
        -- intros r. rewrite H3, assoc_set_keys. intuition congruence.
        -- intros r Hr Hrl. destruct (decide (r = a)) as [->|Hne].
           ++ apply fill_fold_keep. rewrite assoc_get_set. case_decide; congruence.
           ++ apply H4; [|destruct Hrl; [congruence | done]].
              rewrite assoc_set_keys. intuition congruence.
Qed.

Lemma next_counts_props (catalog : list string) (payload : list (string * jsnum)) :
  counts_ok catalog (next_counts catalog payload) /\
  (forall r, In r catalog -> ~ In r (map fst payload) ->
             assoc_get r (next_counts catalog payload) = Some 0%Z).
Proof.
  change (next_counts catalog payload)
    with (fold_left fill_fold catalog (fold_left (first_fold catalog) payload [])).
  destruct (first_fold_props catalog payload []) as (F1 & F2 & F3); [constructor | intros ? ? []|].
  destruct (fill_fold_props catalog _ F1 F2) as (G1 & G2 & G3 & G4).
  split; [split; [exact G1 | split; [|exact G2]]|].
  - intros r. rewrite G3. split; [|tauto]. intros [Hr|Hr]; [|done].
    destruct (F3 r Hr) as [[]|[]]; done.
  - intros r Hc Hp. apply G4; [|done]. intros Hr. destruct (F3 r Hr) as [[]|[]]; done.
Qed.

Lemma defaultCounts_ok : counts_ok ROLE_CATALOG defaultCounts.
Proof.
  assert (E : defaultCounts = [("pablo", 0%Z); ("martinez", 0%Z); ("blanco", 0%Z);
    ("churchill", 0%Z); ("doctor", 0%Z); ("moreno", 0%Z); ("benaparte", 0%Z);
    ("citizen", 1%Z)]) by reflexivity.
  unfold counts_ok. rewrite E. simpl. split; [|split].
  - repeat constructor; simpl; intuition discriminate.
  - tauto.
  - intros r v H. repeat (destruct H as [H|H]; [inversion H; subst; lia|]). destruct H.
Qed.

Lemma heap_ok_set_heap (s : State) (ref : nat) (R : Room) :
  heap_ok s -> settings_ok (settings R) -> heap_ok (set_heap s ref R).
Proof.
  intros Hs HR x R'. simpl. rewrite lookup_insert. case_decide; [intros Heq; inversion Heq; subst; done|].
  apply Hs.
Qed.

Lemma heap_ok_leaveRoom (c : nat) (s : State) : heap_ok s -> heap_ok (leaveRoom c s).1.
Proof.
  intros Hs x R Hx. apply leaveRoom_heap in Hx as (R0 & H0 & -> & _). eauto.
Qed.

Lemma heap_ok_lookup_room (s : State) (k : option string) (ref : nat) (R : Room) :
  heap_ok s -> lookup_room s k = Some (ref, R) -> settings_ok (settings R).
Proof. intros Hs Hl. apply lookup_room_Some in Hl as (? & _ & _ & Hh). eauto. Qed.

Lemma heap_ok_step (s : State) (e : Event) : heap_ok s -> heap_ok (step s e).1.
Proof.
  intros Hs. destruct e as [|c m|c]; simpl.
  - exact Hs.
  - destruct (conns s !! c) as [w|] eqn:Hc; [|exact Hs].
    destruct m as [rnd|key|name|n|counts|draw| |]; simpl.
    + (* CREATE_ROOM *)
      unfold on_create. destruct (leaveRoom c s) as [s1 o1] eqn:El.
      pose proof (heap_ok_leaveRoom c s Hs) as Hs1. rewrite El in Hs1. simpl in Hs1.
      destruct (conns s1 !! c); [|exact Hs1].
      intros x R. simpl. rewrite lookup_insert. case_decide.
      * intros Heq; inversion Heq; subst. split; [done | apply defaultCounts_ok].
      * apply Hs1.
    + (* JOIN_ROOM *)
      unfold on_join. destruct (rooms s !! key) as [ref|]; [|exact Hs].
      destruct (heap s !! ref) as [R|]; [|exact Hs].
      destruct (Qle_bool _ _); [exact Hs|].
      destruct (leaveRoom c s) as [s1 o1] eqn:El.
      pose proof (heap_ok_leaveRoom c s Hs) as Hs1. rewrite El in Hs1. simpl in Hs1.
      destruct (heap s1 !! ref) as [R1|] eqn:Eh; [|exact Hs1].
      destruct (conns s1 !! c); [|exact Hs1]. simpl.
      apply (heap_ok_set_heap s1); [exact Hs1 | exact (Hs1 _ _ Eh)].
    + (* SET_NAME *)
      unfold on_set_name. rewrite Hc.
      destruct (truthy _); [|exact Hs].
      destruct (lookup_room _ _) as [[ref R]|] eqn:Hl; [|exact Hs].
      apply (heap_ok_set_heap (set_conn s c _)); [exact Hs|].
      pose proof (heap_ok_lookup_room _ _ _ _ Hs Hl) as HR.
      destruct (assoc_get c (peers R)); exact HR.
    + (* UPDATE_SETTINGS *)
      unfold on_update_settings. rewrite Hc.
      destruct (lookup_room s _) as [[ref R]|] eqn:Hl; [|exact Hs].
      destruct (negb _); [exact Hs|]. simpl.
      pose proof (heap_ok_lookup_room _ _ _ _ Hs Hl) as HR.
      apply heap_ok_set_heap; [exact Hs|]. destruct n; exact HR.
    + (* UPDATE_ROLE_COUNTS *)
      unfold on_update_role_counts. rewrite Hc.
      destruct (lookup_room s _) as [[ref R]|] eqn:Hl; [|exact Hs].
      destruct (negb _); [exact Hs|]. simpl.
      pose proof (heap_ok_lookup_room _ _ _ _ Hs Hl) as [HC HO].
      apply heap_ok_set_heap; [exact Hs|]. split; [exact HC|]. simpl.
      rewrite HC. apply next_counts_props.
    + (* START_GAME *)
      unfold on_start_game. rewrite Hc.
      destruct (lookup_room s _) as [[ref R]|] eqn:Hl; [|exact Hs].
      destruct (negb _); [exact Hs|]. destruct (negb _); [exact Hs|].
      destruct (_ <? 3); [exact Hs|]. simpl.
      apply heap_ok_set_heap; [exact Hs | exact (heap_ok_lookup_room _ _ _ _ Hs Hl)].
    + exact Hs.
    + exact Hs.
  - destruct (conns s !! c); [|exact Hs].
    destruct (leaveRoom c s) as [s1 o1] eqn:El.
    pose proof (heap_ok_leaveRoom c s Hs) as Hs1. rewrite El in Hs1. exact Hs1.
Qed.

Lemma heap_ok_reachable (s : State) : reachable s -> heap_ok s.
Proof.
  induction 1 as [|s e _ IH].
  - intros x R H. simpl in H. rewrite lookup_empty in H. discriminate.
  - by apply heap_ok_step.
Qed.

Lemma reachable_run (s : State) (es : list Event) : reachable s -> reachable (run s es).1.
Proof.
  revert s. induction es as [|e t IH]; intros s Hs; simpl; [done|].
  destruct (step s e) as [s1 o1] eqn:E. destruct (run s1 t) as [s2 o2] eqn:E2. simpl.
  change s2 with (s2, o2).1. rewrite <- E2. apply IH.
  change s1 with (s1, o1).1. rewrite <- E. by constructor.
Qed.

(** ** C9: shape of roleCounts *)

(** C9: in every reachable state, every room object (so in particular each
    room right after CREATE_ROOM and right after a host's
    UPDATE_ROLE_COUNTS) has the fixed catalog and a roleCounts map with
    exactly one entry per catalog role, each an integer in [0, 50]; the map
    an UPDATE_ROLE_COUNTS stores keeps only catalog keys and gives 0 to
    every catalog role absent from the payload. *)
Theorem role_counts_valid (s : State) (ref : nat) (R : Room) (payload : list (string * jsnum)) :
  reachable s ->
  heap s !! ref = Some R ->
  roleCatalog (settings R) = ROLE_CATALOG /\
  counts_ok ROLE_CATALOG (roleCounts (settings R)) /\
  counts_ok ROLE_CATALOG (next_counts (roleCatalog (settings R)) payload) /\
  (forall r, In r ROLE_CATALOG -> ~ In r (map fst payload) ->
             assoc_get r (next_counts (roleCatalog (settings R)) payload) = Some 0%Z).
Proof.
  intros Hr Hh. destruct (heap_ok_reachable s Hr ref R Hh) as [HC HO].
  rewrite HC. destruct (next_counts_props ROLE_CATALOG payload) as [H1 H2]. auto.
Qed.

Lemma role_counts_valid_witness :
  exists R, heap s_two !! 0 = Some R /\
  roleCatalog (settings R) = ROLE_CATALOG /\
  counts_ok ROLE_CATALOG (roleCounts (settings R)) /\
  counts_ok ROLE_CATALOG (next_counts (roleCatalog (settings R)) [("pablo", JFinite 1); ("joker", JFinite 3)]) /\
  (forall r, In r ROLE_CATALOG -> ~ In r (map fst [("pablo", JFinite 1); ("joker", JFinite 3)]) ->
             assoc_get r (next_counts (roleCatalog (settings R)) [("pablo", JFinite 1); ("joker", JFinite 3)]) = Some 0%Z).
Proof.
  eexists. split; [reflexivity|].
  apply (role_counts_valid s_two 0); [apply reachable_run, reach_init | reflexivity].
Defined.

(** ** Outputs *)

Lemma in_send (s : State) (c d : nat) (x m : Out) :
  In (d, m) (send s c x) -> d = c /\ m = x.
Proof.
  unfold send. destruct (conns s !! c); simpl; [|tauto].
  intros [H|[]]. inversion H; auto.
Qed.

Lemma in_broadcast (s : State) (R : Room) (d : nat) (x m : Out) :
  In (d, m) (broadcast s R x) -> m = x /\ In d (clients R).
Proof.
  unfold broadcast. rewrite in_flat_map. intros (c & Hc & H).
  apply in_send in H as [-> ->]. auto.
Qed.

Ltac outs_tac H :=
  repeat match type of H with
         | In _ (_ ++ _) => apply in_app_or in H; destruct H as [H|H]
         end;
  first [ apply in_send in H as [? ->]
        | apply in_broadcast in H as [-> ?] ].

Lemma leaveRoom_no_role (c : nat) (s : State) (d : nat) (m : Out) :
  In (d, m) (leaveRoom c s).2 -> no_role m.
Proof.
  unfold leaveRoom.
  destruct (conns s !! c) as [w|]; simpl; [|tauto].
  destruct (negb _); simpl; [tauto|].
  destruct (lookup_room _ _) as [[ref R]|]; simpl; [|tauto].
  destruct (clients (leave_room_obj c R)); simpl; intros H; outs_tac H; exact I.
Qed.

Lemma in_private_roles (s : State) (ps : list (nat * Peer)) (d : nat) (r : option string) :
  In (d, PrivateRole r) (flat_map (fun kp => send s (p_ws kp.2) (PrivateRole (p_role kp.2))) ps) ->
  exists k p, In (k, p) ps /\ p_ws p = d /\ p_role p = r.
Proof.
  rewrite in_flat_map. intros ([k p] & Hin & H). apply in_send in H as [-> Heq].
  inversion Heq. eauto.
Qed.

(** Every role a step sends is sent to the socket of a peer holding it,
    in the state after the step; all other outputs carry no role. *)
Lemma step_private_role (s : State) (e : Event) (d : nat) (m : Out) :
  In (d, m) (step s e).2 ->
  no_role m \/
  exists r ref R k p, m = PrivateRole r /\ heap (step s e).1 !! ref = Some R /\
                      In (k, p) (peers R) /\ p_ws p = d /\ p_role p = r.
Proof.
  destruct e as [|c m0|c]; simpl.
  - intros H. outs_tac H. left. exact I.
  - destruct (conns s !! c) as [w|] eqn:Hc; [|simpl; tauto].
    destruct m0 as [rnd|key|name|n|counts|draw| |]; simpl.
    + unfold on_create. destruct (leaveRoom c s) as [s1 o1] eqn:El.
      destruct (conns s1 !! c); simpl; intros H.
      * apply in_app_or in H as [H|H].
        { left. eapply leaveRoom_no_role. rewrite El. exact H. }
        outs_tac H; left; exact I.
      * left. eapply leaveRoom_no_role. rewrite El. exact H.
    + unfold on_join. destruct (rooms s !! key) as [ref|]; [|intros H; outs_tac H; left; exact I].
      destruct (heap s !! ref) as [R|]; [|simpl; tauto].
      destruct (Qle_bool _ _); [intros H; outs_tac H; left; exact I|].
      destruct (leaveRoom c s) as [s1 o1] eqn:El.
      assert (Ho1 : In (d, m) o1 -> no_role m).
      { intros H. eapply leaveRoom_no_role. rewrite El. exact H. }
      destruct (heap s1 !! ref) as [R1|]; [|simpl; auto].
      destruct (conns s1 !! c); simpl; [|auto].
      intros H. apply in_app_or in H as [H|H]; [auto|]. outs_tac H; left; exact I.
    + unfold on_set_name. rewrite Hc.
      destruct (truthy _); [|intros H; outs_tac H; left; exact I].
      destruct (lookup_room _ _) as [[ref R]|]; [|simpl; tauto].
      intros H. outs_tac H. left. exact I.
    + unfold on_update_settings. rewrite Hc.
      destruct (lookup_room _ _) as [[ref R]|]; [|simpl; tauto].
      destruct (negb _); intros H; outs_tac H; left; exact I.
    + unfold on_update_role_counts. rewrite Hc.
      destruct (lookup_room _ _) as [[ref R]|]; [|simpl; tauto].
      destruct (negb _); intros H; outs_tac H; left; exact I.
    + unfold on_start_game. rewrite Hc.
      destruct (lookup_room _ _) as [[ref R]|]; [|simpl; tauto].
      destruct (negb _); [intros H; outs_tac H; left; exact I|].
      destruct (negb _); [intros H; outs_tac H; left; exact I|].
      destruct (_ <? 3); [intros H; outs_tac H; left; exact I|].
      simpl. intros H. apply in_app_or in H as [H|H].
      * destruct m as [| | | | | | | |r|]; try (left; exact I).
        right. apply in_private_roles in H as (k & p & Hin & Hd & Hr).
        exists r, ref. eexists. exists k, p. split; [done|].
        split; [apply lookup_insert_eq|]. simpl. auto.
      * outs_tac H. left. exact I.
    + intros H. outs_tac H. left. exact I.
    + simpl. tauto.
  - destruct (conns s !! c); [|simpl; tauto].
    destruct (leaveRoom c s) as [s1 o1] eqn:El. simpl. intros H.
    left. eapply leaveRoom_no_role. rewrite El. exact H.
Qed.

Lemma roomState_with_roles (f : nat -> option string) (R : Room) :
  roomState (with_roles f R) = roomState R.
Proof.
  unfold roomState, with_roles, room_with_members. simpl. f_equal.
  rewrite map_map. apply map_ext. intros [k p]. reflexivity.
Qed.

(** ** C1: roles are only sent privately *)

(** C1: every message a step sends either has a type that carries no role,
    or is a PRIVATE_ROLE addressed to the socket of a peer of a room who
    holds exactly that role after the step; and the public ROOM_STATE
    snapshot (entries id, name, alive) is the same whatever roles the peers
    hold. *)
Theorem role_sent_only_to_owner (s : State) (e : Event) (d : nat) (m : Out)
    (f : nat -> option string) (R : Room) :
  In (d, m) (step s e).2 ->
  (no_role m \/
   exists r ref R' k p, m = PrivateRole r /\ heap (step s e).1 !! ref = Some R' /\
                        In (k, p) (peers R') /\ p_ws p = d /\ p_role p = r) /\
  roomState (with_roles f R) = roomState R.
Proof.
  intros H. split; [by apply step_private_role | apply roomState_with_roles].
Qed.

Lemma role_sent_only_to_owner_witness :
  exists R,
  In (1, PrivateRole (Some "citizen")) (step s_three (Message 0 (START_GAME (fun _ => 0)))).2 /\
  heap s_three !! 0 = Some R /\
  (no_role (PrivateRole (Some "citizen")) \/
   exists r ref R' k p, PrivateRole (Some "citizen") = PrivateRole r /\
     heap (step s_three (Message 0 (START_GAME (fun _ => 0)))).1 !! ref = Some R' /\
     In (k, p) (peers R') /\ p_ws p = 1 /\ p_role p = r) /\
  roomState (with_roles (fun _ => Some "pablo") R) = roomState R.
Proof.
  eexists. split; [vm_compute; tauto|]. split; [reflexivity|].
  apply (role_sent_only_to_owner s_three (Message 0 (START_GAME (fun _ => 0))) 1).
  vm_compute; tauto.
Defined.

(** ** C2: role assignment at START_GAME *)

Lemma swap_perm (i j : nat) (a : list string) : swap i j a ≡ₚ a.
Proof.
  unfold swap. destruct (a !! i) as [ai|] eqn:Ei; [|done].
  destruct (a !! j) as [aj|] eqn:Ej; [|done].
  by apply Permutation_insert_swap.
Qed.

Lemma shuffle_loop_perm (draw : nat -> nat) (i : nat) (a : list string) :
  shuffle_loop draw i a ≡ₚ a.
Proof.
  revert a. induction i as [|i IH]; intros a; simpl; [done|].
  rewrite IH. apply swap_perm.
Qed.

Lemma shuffle_perm (draw : nat -> nat) (a : list string) : shuffle draw a ≡ₚ a.
Proof. apply shuffle_loop_perm. Qed.

Lemma pad_loop_eq (fuel n : nat) (pool : list string) :
  n - length pool <= fuel ->
  pad_loop fuel n pool = pool ++ repeat "citizen" (n - length pool).
Proof.
  revert pool. induction fuel as [|f IH]; intros pool Hf; simpl.
  - replace (n - length pool) with 0 by lia. by rewrite app_nil_r.
  - destruct (length pool <? n) eqn:E.
    + apply Nat.ltb_lt in E. rewrite IH by (rewrite length_app; simpl; lia).
      rewrite length_app, <- app_assoc. simpl. f_equal.
      replace (n - length pool) with (S (n - (length pool + 1))) by lia. reflexivity.
    + apply Nat.ltb_ge in E. replace (n - length pool) with 0 by lia. by rewrite app_nil_r.
Qed.

Lemma fill_pool_spec (n : nat) (st : Settings) :
  fill_pool n (build_pool (roleCatalog st) (roleCounts st)) = spec_pool n st.
Proof.
  unfold fill_pool, spec_pool, build_pool.
  assert (Hb : flat_map (fun r => repeat r (Z.to_nat (Z.max 0 (default 0%Z (assoc_get r (roleCounts st))))))
                 (roleCatalog st)
             = flat_map (fun r => repeat r (Z.to_nat (default 0%Z (assoc_get r (roleCounts st)))))
                 (roleCatalog st)).
  { apply flat_map_ext. intros r. f_equal. lia. }
  rewrite Hb. apply pad_loop_eq. lia.
Qed.

Lemma spec_pool_length (n : nat) (st : Settings) : n <= length (spec_pool n st).
Proof. unfold spec_pool. rewrite length_app, repeat_length. lia. Qed.

Lemma assign_from_keys (i : nat) (pool : list string) (ps : list (nat * Peer)) :
  map fst (assign_from i pool ps) = map fst ps.
Proof.
  revert i. induction ps as [|[k p] t IH]; intros i; simpl; [done|]. by rewrite IH.
Qed.

Lemma assign_from_roles (i : nat) (pool : list string) (ps : list (nat * Peer)) :
  i + length ps <= length pool ->
  map (fun kp => p_role kp.2) (assign_from i pool ps) = map Some (take (length ps) (drop i pool)).
Proof.
  revert i. induction ps as [|[k p] t IH]; intros i Hl; simpl in *; [done|].
  destruct (pool !! i) as [x|] eqn:Ex; [|apply lookup_ge_None in Ex; lia].
  rewrite (drop_S pool x i Ex). simpl. rewrite IH by lia. reflexivity.
Qed.

Lemma assign_from_alive (i : nat) (pool : list string) (ps : list (nat * Peer)) :
  Forall (fun kp => p_alive kp.2 = true) (assign_from i pool ps).
Proof.
  revert i. induction ps as [|[k p] t IH]; intros i; simpl; constructor; auto.
Qed.

(** C2: a START_GAME from the host of a lobby room with N >= 3 peers gives
    the N peers, in order, the first N entries of the shuffled pool, where
    the pool is the catalog roles repeated by their counts in catalog
    order, seeded with one "citizen" if empty and padded with "citizen" to
    length at least N; the shuffle only permutes the pool, every peer is
    alive, the phase becomes night and the day 1. *)
Theorem start_game_assigns (s : State) (c : nat) (w : Conn) (ref : nat) (R : Room)
    (draw : nat -> nat) :
  conns s !! c = Some w ->
  lookup_room s (ws_roomId w) = Some (ref, R) ->
  hostId R = Some c ->
  phase R = "lobby" ->
  3 <= length (peers R) ->
  (forall i, draw i <= i) ->
  length (peers R) <= length (spec_pool (length (peers R)) (settings R)) /\
  shuffle draw (spec_pool (length (peers R)) (settings R)) ≡ₚ spec_pool (length (peers R)) (settings R) /\
  exists R', heap (step s (Message c (START_GAME draw))).1 !! ref = Some R' /\
    map fst (peers R') = map fst (peers R) /\
    map (fun kp => p_role kp.2) (peers R')
      = map Some (take (length (peers R)) (shuffle draw (spec_pool (length (peers R)) (settings R)))) /\
    length (take (length (peers R)) (shuffle draw (spec_pool (length (peers R)) (settings R))))
      = length (peers R) /\
    Forall (fun kp => p_alive kp.2 = true) (peers R') /\
    phase R' = "night" /\ day R' = 1.
Proof.
  intros Hc Hl Hh Hp Hn _.
  set (N := length (peers R)). set (pool := spec_pool N (settings R)).
  assert (HN : N <= length pool) by apply spec_pool_length.
  assert (Hperm : shuffle draw pool ≡ₚ pool) by apply shuffle_perm.
  assert (Hlen : length (shuffle draw pool) = length pool) by (by rewrite Hperm).
  split; [exact HN|]. split; [exact Hperm|].
  simpl. rewrite Hc. unfold on_start_game. rewrite Hc, Hl, Hh, Hp.
  rewrite bool_decide_eq_true_2 by done. simpl.
  assert (E3 : (N <? 3) = false) by (apply Nat.ltb_ge; lia). fold N. rewrite E3. simpl.
  eexists. split; [apply lookup_insert_eq|]. simpl.
  unfold role_pool. rewrite fill_pool_spec. fold pool.
  split; [apply assign_from_keys|].
  split.
  - rewrite assign_from_roles.
    + simpl. fold N. rewrite drop_0, take_take, Nat.min_id. reflexivity.
    + rewrite length_take, Hlen. simpl. fold N. lia.
  - split; [rewrite length_take, Hlen; lia|].
    split; [apply assign_from_alive|]. auto.
Qed.

Lemma start_game_assigns_witness :
  exists w R,
  conns s_three !! 0 = Some w /\ lookup_room s_three (ws_roomId w) = Some (0, R) /\
  length (peers R) <= length (spec_pool (length (peers R)) (settings R)) /\
  shuffle (fun _ => 0) (spec_pool (length (peers R)) (settings R)) ≡ₚ spec_pool (length (peers R)) (settings R) /\
  exists R', heap (step s_three (Message 0 (START_GAME (fun _ => 0)))).1 !! 0 = Some R' /\
    map fst (peers R') = map fst (peers R) /\
    map (fun kp => p_role kp.2) (peers R')
      = map Some (take (length (peers R)) (shuffle (fun _ => 0) (spec_pool (length (peers R)) (settings R)))) /\
    length (take (length (peers R)) (shuffle (fun _ => 0) (spec_pool (length (peers R)) (settings R))))
      = length (peers R) /\
    Forall (fun kp => p_alive kp.2 = true) (peers R') /\
    phase R' = "night" /\ day R' = 1.
Proof.
  do 2 eexists. split; [reflexivity|]. split; [reflexivity|].
  eapply (start_game_assigns s_three 0 _ 0 _ (fun _ => 0));
    [reflexivity | reflexivity | reflexivity | reflexivity | vm_compute; lia | intros; lia].
Defined.

(** ** Registry invariant *)

Lemma inv_init : inv init.
Proof.
  unfold inv; simpl.
  split; [|split; [|split; [|split]]]; intros *; rewrite ?lookup_empty; discriminate.
Qed.

Lemma inv_registry_inj (s : State) (k1 k2 : string) (ref : nat) :
  inv s -> rooms s !! k1 = Some ref -> rooms s !! k2 = Some ref -> k1 = k2.
Proof.
  intros (Ha & _) H1 H2.
  destruct (Ha _ _ H1) as (R1 & E1 & <-). destruct (Ha _ _ H2) as (R2 & E2 & <-). congruence.
Qed.

(** a socket whose [roomId] is not truthy is in no room with a non-empty id *)
Lemma inv_not_member (s : State) (c : nat) (w : Conn) :
  inv s -> conns s !! c = Some w -> truthy (ws_roomId w) = false ->
  forall k ref R, rooms s !! k = Some ref -> heap s !! ref = Some R -> k <> "" -> ~ member R c.
Proof.
  intros (_ & Hb & _) Hc Ht k ref R Hk Hh Hne Hm.
  destruct (Hb _ _ _ _ Hk Hh Hne Hm) as (w' & Hw' & Hr). rewrite Hc in Hw'. inversion Hw'; subst.
  rewrite Hr in Ht. simpl in Ht. apply negb_false_iff, String.eqb_eq in Ht. congruence.
Qed.

Lemma set_delete_In (x y : nat) (l : list nat) : In y (set_delete x l) <-> In y l /\ y <> x.
Proof.
  unfold set_delete. rewrite filter_In. rewrite negb_true_iff, bool_decide_eq_false. tauto.
Qed.

Lemma set_add_In (x y : nat) (l : list nat) : In y (set_add x l) <-> y = x \/ In y l.
Proof.
  unfold set_add. case_bool_decide as H.
  - apply list_elem_of_In in H. intuition congruence.
  - rewrite in_app_iff. simpl. intuition congruence.
Qed.

Lemma assoc_delete_keys {V} (x y : nat) (m : list (nat * V)) :
  In y (map fst (assoc_delete x m)) <-> In y (map fst m) /\ y <> x.
Proof.
  unfold assoc_delete. rewrite !in_map_iff. split.
  - intros ([k v] & <- & Hin). apply filter_In in Hin as [Hin Hb].
    apply negb_true_iff, bool_decide_eq_false in Hb. simpl in *. split; [exists (k, v)|]; auto.
  - intros ([[k v] [<- Hin]] & Hne). exists (k, v). split; [done|].
    apply filter_In. split; [done|]. apply negb_true_iff, bool_decide_eq_false. done.
Qed.

Lemma assoc_set_keys_present {V} (k : nat) (v v' : V) (m : list (nat * V)) :
  assoc_get k m = Some v -> map fst (assoc_set k v' m) = map fst m.
Proof.
  induction m as [|[k0 v0] t IH]; simpl; [discriminate|].
  destruct (decide (k = k0)) as [->|Hne]; simpl; [done|]. intros H. by rewrite IH.
Qed.

Lemma member_leave_room_obj (c x : nat) (R : Room) :
  member (leave_room_obj c R) x <-> member R x /\ x <> c.
Proof.
  unfold member, leave_room_obj.
  case_bool_decide; simpl; rewrite set_delete_In, assoc_delete_keys; tauto.
Qed.

Lemma clients_peers_leave_room_obj (c x : nat) (R : Room) :
  (In x (clients R) <-> In x (map fst (peers R))) ->
  (In x (clients (leave_room_obj c R)) <-> In x (map fst (peers (leave_room_obj c R)))).
Proof.
  intros H. unfold leave_room_obj.
  case_bool_decide; simpl; rewrite set_delete_In, assoc_delete_keys; tauto.
Qed.

Lemma r_id_leave_room_obj (c : nat) (R : Room) : r_id (leave_room_obj c R) = r_id R.
Proof. unfold leave_room_obj. by case_bool_decide. Qed.

Lemma inv_delete_room (s : State) (k : string) : inv s -> inv (set_rooms s (delete k (rooms s))).
Proof.
  intros (Ha & Hb & Hc & Hd & He). unfold inv, set_rooms; simpl.
  split; [|split; [|split; [|split]]]; [intros k' ref H|intros k' ref R x H|intros k' ref R x H|exact Hd|exact He];
    apply lookup_delete_Some in H as [_ H]; eauto.
Qed.

Lemma inv_set_conn_away (s : State) (c : nat) (w' : Conn) :
  inv s -> is_Some (conns s !! c) ->
  (forall k ref R, rooms s !! k = Some ref -> heap s !! ref = Some R -> k <> "" -> ~ member R c) ->
  inv (set_conn s c w').
Proof.
  intros (Ha & Hb & Hc & Hd & He) [w0 Hw0] Hout. unfold inv, set_conn; simpl.
  split; [exact Ha|split; [|split; [exact Hc|split; [|exact He]]]].
  - intros k ref R x Hk Hh Hne Hm.
    destruct (decide (x = c)) as [->|Hx]; [exfalso; exact (Hout _ _ _ Hk Hh Hne Hm)|].
    rewrite lookup_insert_ne by congruence. eauto.
  - intros x w Hx. apply lookup_insert_Some in Hx as [[<- _]|[_ Hx]]; eauto.
Qed.

Lemma inv_set_conn_same (s : State) (c : nat) (w w' : Conn) :
  inv s -> conns s !! c = Some w -> ws_roomId w' = ws_roomId w -> inv (set_conn s c w').
Proof.
  intros (Ha & Hb & Hc & Hd & He) Hw Hr. unfold inv, set_conn; simpl.
  split; [exact Ha|split; [|split; [exact Hc|split; [|exact He]]]].
  - intros k ref R x Hk Hh Hne Hm.
    destruct (Hb _ _ _ _ Hk Hh Hne Hm) as (w1 & Hw1 & Hr1).
    destruct (decide (x = c)) as [->|Hx].
    + exists w'. rewrite lookup_insert_Some. split; [left; done|]. congruence.
    + rewrite lookup_insert_ne by congruence. eauto.
  - intros x w0 Hx. apply lookup_insert_Some in Hx as [[<- _]|[_ Hx]]; eauto.
Qed.

Lemma inv_set_heap_same (s : State) (ref : nat) (R R' : Room) :
  inv s -> heap s !! ref = Some R -> r_id R' = r_id R -> clients R' = clients R ->
  map fst (peers R') = map fst (peers R) -> inv (set_heap s ref R').
Proof.
  intros (Ha & Hb & Hc & Hd & He) Hh Hid Hcl Hpk. unfold inv, set_heap; simpl.
  assert (Hm : forall x, member R' x <-> member R x) by (intros x; unfold member; rewrite Hcl, Hpk; tauto).
  split; [|split; [|split; [|split; [exact Hd|]]]].
  - intros k ref' Hk. destruct (Ha _ _ Hk) as (R0 & H0 & Hr0).
    destruct (decide (ref' = ref)) as [->|Hne].
    + exists R'. rewrite lookup_insert_Some. split; [left; done|]. congruence.
    + rewrite lookup_insert_ne by congruence. eauto.
  - intros k ref' R0 x Hk Hh0 Hne Hx. apply lookup_insert_Some in Hh0 as [[<- <-]|[_ Hh0]].
    + apply Hm in Hx. eauto.
    + eauto.
  - intros k ref' R0 x Hk Hh0. apply lookup_insert_Some in Hh0 as [[<- <-]|[_ Hh0]].
    + rewrite Hcl, Hpk. eauto.
    + eauto.
  - intros ref' R0 Hh0. apply lookup_insert_Some in Hh0 as [[<- _]|[_ Hh0]]; eauto.
Qed.

Lemma inv_leave_obj (s : State) (c : nat) (w w' : Conn) (k : string) (ref : nat) (R : Room) :
  inv s -> conns s !! c = Some w -> ws_roomId w = Some k -> rooms s !! k = Some ref ->
  heap s !! ref = Some R -> inv (set_heap (set_conn s c w') ref (leave_room_obj c R)).
Proof.
  intros Hinv Hc Hr Hk Hh. pose proof Hinv as (Ha & Hb & Hcp & Hd & He).
  unfold inv, set_heap, set_conn; simpl.
  split; [|split; [|split; [|split]]].
  - intros k' ref' Hk'. destruct (Ha _ _ Hk') as (R0 & H0 & Hr0).
    destruct (decide (ref' = ref)) as [->|Hne].
    + exists (leave_room_obj c R). rewrite lookup_insert_Some, r_id_leave_room_obj. split; [left; done|]. congruence.
    + rewrite lookup_insert_ne by congruence. eauto.
  - intros k' ref' R0 x Hk' Hh0 Hne Hx. apply lookup_insert_Some in Hh0 as [[<- <-]|[Hne' Hh0]].
    + apply member_leave_room_obj in Hx as [Hx Hxc].
      rewrite (inv_registry_inj s k' k ref Hinv Hk' Hk) in *.
      rewrite lookup_insert_ne by congruence. eauto.
    + destruct (Hb _ _ _ _ Hk' Hh0 Hne Hx) as (w1 & Hw1 & Hr1).
      destruct (decide (x = c)) as [->|Hxc].
      * rewrite Hc in Hw1. inversion Hw1; subst w1.
        assert (k' = k) as -> by congruence. congruence.
      * rewrite lookup_insert_ne by congruence. eauto.
  - intros k' ref' R0 x Hk' Hh0. apply lookup_insert_Some in Hh0 as [[<- <-]|[_ Hh0]].
    + apply clients_peers_leave_room_obj. eauto.
    + eauto.
  - intros x w0 Hx. apply lookup_insert_Some in Hx as [[<- _]|[_ Hx]]; eauto.
  - intros ref' R0 Hh0. apply lookup_insert_Some in Hh0 as [[<- _]|[_ Hh0]]; eauto.
Qed.

(** [leaveRoom] keeps the invariant, touches no other socket and leaves the
    socket, if open, with a falsy [roomId] *)
Lemma leaveRoom_inv (c : nat) (s : State) :
  inv s ->
  inv (leaveRoom c s).1 /\ next_conn (leaveRoom c s).1 = next_conn s /\
  next_ref (leaveRoom c s).1 = next_ref s /\
  (forall d, d <> c -> conns (leaveRoom c s).1 !! d = conns s !! d) /\
  (conns s !! c = None -> conns (leaveRoom c s).1 !! c = None) /\
  (forall w, conns s !! c = Some w -> exists w', conns (leaveRoom c s).1 !! c = Some w' /\
      truthy (ws_roomId w') = false /\ ws_name w' = ws_name w).
Proof.
  intros Hinv. unfold leaveRoom.
  destruct (conns s !! c) as [w|] eqn:Hc; simpl;
    [|refine (conj Hinv (conj eq_refl (conj eq_refl (conj (fun _ _ => eq_refl) (conj (fun _ => Hc) _)))));
      discriminate].
  destruct (truthy (ws_roomId w)) eqn:Ht; simpl;
    [|split; [exact Hinv|]; split; [done|]; split; [done|]; split; [done|];
      split; [discriminate|]; intros w1 Hw1; inversion Hw1; subst; rewrite Hc; eauto].
  destruct (ws_roomId w) as [k|] eqn:Hr; [|discriminate].
  assert (Hconn : let cs := <[c := conn_with_room w None]> (conns s) in
            (forall d, d <> c -> cs !! d = conns s !! d) /\
            (Some w = None -> cs !! c = None) /\
            (forall w0, Some w = Some w0 -> exists w', cs !! c = Some w' /\
               truthy (ws_roomId w') = false /\ ws_name w' = ws_name w0)).
  { cbv zeta. split; [intros d Hd; by rewrite lookup_insert_ne by congruence|].
    split; [discriminate|]. intros w0 Hw0; inversion Hw0; subst w0.
    exists (conn_with_room w None). rewrite lookup_insert_Some. auto. }
  unfold lookup_room; simpl.
  destruct (rooms s !! k) as [ref|] eqn:Hk.
  - destruct (heap s !! ref) as [R|] eqn:Hh.
    + pose proof (inv_leave_obj s c w (conn_with_room w None) k ref R Hinv Hc Hr Hk Hh) as Hi.
      destruct (clients (leave_room_obj c R)); simpl.
      * split; [apply (inv_delete_room _ _ Hi)|]. do 2 (split; [done|]). exact Hconn.
      * split; [exact Hi|]. do 2 (split; [done|]). exact Hconn.
    + destruct Hinv as (Ha & _). destruct (Ha _ _ Hk) as (R0 & H0 & _). congruence.
  - split; [|do 2 (split; [done|]); exact Hconn].
    apply inv_set_conn_away; [exact Hinv|eauto|].
    intros k' ref' R0 Hk' Hh0 Hne Hm. destruct Hinv as (_ & Hb & _).
    destruct (Hb _ _ _ _ Hk' Hh0 Hne Hm) as (w1 & Hw1 & Hr1). rewrite Hc in Hw1.
    inversion Hw1; subst w1. assert (k' = k) as -> by congruence. congruence.
Qed.

Lemma on_create_inv (c : nat) (rnd36 : string) (s : State) : inv s -> inv (on_create c rnd36 s).1.
Proof.
  intros Hs. unfold on_create.
  pose proof (leaveRoom_inv c s Hs) as (Hs1 & Hnc & Hnr & Hoth & Hnone & Hsome).
  destruct (leaveRoom c s) as [s1 o1] eqn:El. simpl in *.
  destruct (conns s1 !! c) as [w|] eqn:Hw; [|exact Hs1]. simpl.
  assert (Ht : truthy (ws_roomId w) = false).
  { destruct (conns s !! c) as [w0|] eqn:Hc0.
    - destruct (Hsome w0 eq_refl) as (w' & Hw' & Ht & _). congruence.
    - pose proof (Hnone eq_refl). congruence. }
  pose proof (inv_not_member s1 c w Hs1 Hw Ht) as Hout.
  destruct Hs1 as (Ha & Hb & Hcp & Hd & He).
  assert (Hold : forall k ref', rooms s1 !! k = Some ref' -> ref' <> next_ref s1).
  { intros k ref' Hk. destruct (Ha _ _ Hk) as (R0 & H0 & _). apply He in H0. lia. }
  unfold inv; simpl.
  split; [|split; [|split; [|split]]].
  - intros k ref' Hk. apply lookup_insert_Some in Hk as [[<- <-]|[Hne Hk]].
    + eexists. rewrite lookup_insert_Some. split; [left; done|]. reflexivity.
    + destruct (Ha _ _ Hk) as (R0 & H0 & Hr0). exists R0.
      rewrite lookup_insert_ne by (apply not_eq_sym, (Hold _ _ Hk)). auto.
  - intros k ref' R0 x Hk Hh Hne Hm. apply lookup_insert_Some in Hk as [[<- <-]|[Hne' Hk]].
    + rewrite lookup_insert_Some in Hh. destruct Hh as [[_ <-]|[Hf _]]; [|done].
      destruct Hm as [Hm|Hm]; simpl in Hm; destruct Hm as [<-|[]].
      all: eexists; rewrite lookup_insert_Some; split; [left; done|]; reflexivity.
    + rewrite lookup_insert_ne in Hh by (apply not_eq_sym, (Hold _ _ Hk)).
      destruct (decide (x = c)) as [->|Hxc]; [exfalso; exact (Hout _ _ _ Hk Hh Hne Hm)|].
      rewrite lookup_insert_ne by congruence. eauto.
  - intros k ref' R0 x Hk Hh. apply lookup_insert_Some in Hk as [[<- <-]|[Hne' Hk]].
    + rewrite lookup_insert_Some in Hh. destruct Hh as [[_ <-]|[Hf _]]; [|done]. simpl. tauto.
    + rewrite lookup_insert_ne in Hh by (apply not_eq_sym, (Hold _ _ Hk)). eauto.
  - intros x w0 Hx. apply lookup_insert_Some in Hx as [[<- _]|[_ Hx]]; eauto.
  - intros ref' R0 Hh. apply lookup_insert_Some in Hh as [[<- _]|[_ Hh]]; [lia|].
    apply He in Hh. lia.
Qed.

Lemma on_join_inv (c : nat) (key : string) (s : State) : inv s -> inv (on_join c key s).1.
Proof.
  intros Hs. unfold on_join.
  destruct (rooms s !! key) as [ref|]; [|exact Hs].
  destruct (heap s !! ref) as [R|]; [|exact Hs].
  destruct (Qle_bool _ _); [exact Hs|].
  pose proof (leaveRoom_inv c s Hs) as (Hs1 & Hnc & Hnr & Hoth & Hnone & Hsome).
  destruct (leaveRoom c s) as [s1 o1] eqn:El. simpl in *.
  destruct (heap s1 !! ref) as [R1|] eqn:Hh1; [|exact Hs1].
  destruct (conns s1 !! c) as [w|] eqn:Hw; [|exact Hs1]. simpl.
  assert (Ht : truthy (ws_roomId w) = false).
  { destruct (conns s !! c) as [w0|] eqn:Hc0.
    - destruct (Hsome w0 eq_refl) as (w' & Hw' & Ht & _). congruence.
    - pose proof (Hnone eq_refl). congruence. }
  pose proof (inv_not_member s1 c w Hs1 Hw Ht) as Hout.
  destruct Hs1 as (Ha & Hb & Hcp & Hd & He).
  set (p := {| p_id := c; p_ws := c; p_name := or_default (ws_name w) "Guest";
               p_role := None; p_alive := false |}).
  assert (Hm2 : forall x, member (room_with_members R1 (set_add c (clients R1)) (assoc_set c p (peers R1))) x
                  <-> x = c \/ member R1 x).
  { intros x. unfold member; simpl. rewrite set_add_In, assoc_set_keys. tauto. }
  unfold inv; simpl.
  split; [|split; [|split; [|split]]].
  - intros k ref' Hk. destruct (Ha _ _ Hk) as (R0 & H0 & Hr0).
    destruct (decide (ref' = ref)) as [->|Hne].
    + eexists. rewrite lookup_insert_Some. split; [left; done|]. simpl. congruence.
    + rewrite lookup_insert_ne by congruence. eauto.
  - intros k ref' R0 x Hk Hh Hne Hm. apply lookup_insert_Some in Hh as [[<- <-]|[Hne' Hh]].
    + destruct (Ha _ _ Hk) as (R0 & H0 & Hr0). rewrite Hh1 in H0. inversion H0; subst R0.
      apply Hm2 in Hm as [->|Hm].
      * eexists. rewrite lookup_insert_Some. split; [left; done|]. simpl. congruence.
      * destruct (decide (x = c)) as [->|Hxc].
        { eexists. rewrite lookup_insert_Some. split; [left; done|]. simpl. congruence. }
        rewrite lookup_insert_ne by congruence. eauto.
    + destruct (decide (x = c)) as [->|Hxc]; [exfalso; exact (Hout _ _ _ Hk Hh Hne Hm)|].
      rewrite lookup_insert_ne by congruence. eauto.
  - intros k ref' R0 x Hk Hh. apply lookup_insert_Some in Hh as [[<- <-]|[Hne' Hh]].
    + simpl. rewrite set_add_In, assoc_set_keys. pose proof (Hcp _ _ _ x Hk Hh1). tauto.
    + eauto.
  - intros x w0 Hx. apply lookup_insert_Some in Hx as [[<- _]|[_ Hx]]; eauto.
  - intros ref' R0 Hh. apply lookup_insert_Some in Hh as [[<- _]|[_ Hh]]; eauto.
Qed.

Lemma inv_delete_conn (s : State) (c : nat) :
  inv s ->
  (forall k ref R, rooms s !! k = Some ref -> heap s !! ref = Some R -> k <> "" -> ~ member R c) ->
  inv (set_conns s (delete c (conns s))).
Proof.
  intros (Ha & Hb & Hcp & Hd & He) Hout. unfold inv, set_conns; simpl.
  split; [exact Ha|split; [|split; [exact Hcp|split; [|exact He]]]].
  - intros k ref R x Hk Hh Hne Hm.
    destruct (decide (x = c)) as [->|Hx]; [exfalso; exact (Hout _ _ _ Hk Hh Hne Hm)|].
    rewrite lookup_delete_ne by congruence. eauto.
  - intros x w Hx. apply lookup_delete_Some in Hx as [_ Hx]. eauto.
Qed.

(** after [leaveRoom c], the socket [c] is in no room with a non-empty id *)
Lemma leaveRoom_away (c : nat) (s : State) :
  inv s -> forall k ref R, rooms (leaveRoom c s).1 !! k = Some ref ->
  heap (leaveRoom c s).1 !! ref = Some R -> k <> "" -> ~ member R c.
Proof.
  intros Hs k ref R Hk Hh Hne Hm.
  pose proof (leaveRoom_inv c s Hs) as (Hs1 & _ & _ & _ & Hnone & Hsome).
  destruct Hs1 as (Ha & Hb & _).
  destruct (Hb _ _ _ _ Hk Hh Hne Hm) as (w & Hw & Hr).
  destruct (conns s !! c) as [w0|] eqn:Hc0.
  - destruct (Hsome w0 eq_refl) as (w' & Hw' & Ht & _). rewrite Hw in Hw'. inversion Hw'; subst w'.
    rewrite Hr in Ht. simpl in Ht. apply negb_false_iff, String.eqb_eq in Ht. congruence.
  - rewrite (Hnone eq_refl) in Hw. discriminate.
Qed.

Lemma inv_step (s : State) (e : Event) : inv s -> inv (step s e).1.
Proof.
  intros Hs. destruct e as [|c m|c]; simpl.
  - destruct Hs as (Ha & Hb & Hcp & Hd & He). unfold inv; simpl.
    split; [exact Ha|split; [|split; [exact Hcp|split; [|exact He]]]].
    + intros k ref R x Hk Hh Hne Hm. destruct (Hb _ _ _ _ Hk Hh Hne Hm) as (w & Hw & Hr).
      exists w. rewrite lookup_insert_ne; [auto|]. apply Hd in Hw. lia.
    + intros x w Hx. apply lookup_insert_Some in Hx as [[<- _]|[_ Hx]]; [lia|]. apply Hd in Hx. lia.
  - destruct (conns s !! c) as [w|] eqn:Hc; [|exact Hs].
    destruct m as [rnd|key|name|n|counts|draw| |]; simpl.
    + apply on_create_inv, Hs.
    + apply on_join_inv, Hs.
    + unfold on_set_name. rewrite Hc.
      match goal with |- context [set_conn s c ?w'] =>
        assert (Hs1 : inv (set_conn s c w')) by (eapply inv_set_conn_same; [exact Hs|exact Hc|reflexivity]) end.
      destruct (truthy _); [|exact Hs1].
      destruct (lookup_room _ _) as [[ref R]|] eqn:Hl; [|exact Hs1].
      apply lookup_room_Some in Hl as (k & _ & _ & Hh). simpl.
      destruct (assoc_get c (peers R)) as [p|] eqn:Hp.
      * apply (inv_set_heap_same _ _ R); [exact Hs1|exact Hh|reflexivity|reflexivity|].
        simpl. apply (assoc_set_keys_present _ p), Hp.
      * apply (inv_set_heap_same _ _ R); [exact Hs1|exact Hh|reflexivity..].
    + unfold on_update_settings. rewrite Hc.
      destruct (lookup_room s _) as [[ref R]|] eqn:Hl; [|exact Hs].
      apply lookup_room_Some in Hl as (k & _ & _ & Hh).
      destruct (negb _); [exact Hs|]. simpl.
      destruct n; (apply (inv_set_heap_same _ _ R); [exact Hs|exact Hh|reflexivity..]).
    + unfold on_update_role_counts. rewrite Hc.
      destruct (lookup_room s _) as [[ref R]|] eqn:Hl; [|exact Hs].
      apply lookup_room_Some in Hl as (k & _ & _ & Hh).
      destruct (negb _); [exact Hs|]. simpl.
      apply (inv_set_heap_same _ _ R); [exact Hs|exact Hh|reflexivity..].
    + unfold on_start_game. rewrite Hc.
      destruct (lookup_room s _) as [[ref R]|] eqn:Hl; [|exact Hs].
      apply lookup_room_Some in Hl as (k & _ & _ & Hh).
      destruct (negb _); [exact Hs|]. destruct (negb _); [exact Hs|].
      destruct (_ <? 3); [exact Hs|]. simpl.
      apply (inv_set_heap_same _ _ R); [exact Hs|exact Hh|reflexivity|reflexivity|].
      apply assign_from_keys.
    + exact Hs.
    + exact Hs.
  - destruct (conns s !! c); [|exact Hs].
    pose proof (leaveRoom_inv c s Hs) as (Hs1 & _).
    pose proof (leaveRoom_away c s Hs) as Hout.
    destruct (leaveRoom c s) as [s1 o1]. simpl in *.
    apply inv_delete_conn; assumption.
Qed.

Lemma inv_reachable (s : State) : reachable s -> inv s.
Proof.
  induction 1; [apply inv_init|]. apply inv_step. assumption.
Qed.

(** the steps of a close of [c] whose room [k] is registered *)
Lemma close_unfold (s : State) (c : nat) (w : Conn) (k : string) (ref : nat) (R : Room) :
  conns s !! c = Some w -> ws_roomId w = Some k -> k <> "" ->
  rooms s !! k = Some ref -> heap s !! ref = Some R ->
  let R' := leave_room_obj c R in
  let cs := delete c (<[c := conn_with_room w None]> (conns s)) in
  let s2 := set_heap (set_conn s c (conn_with_room w None)) ref R' in
  step s (Close c) =
    ({| rooms := match clients R' with [] => delete (r_id R') (rooms s) | _ => rooms s end;
        heap := <[ref := R']> (heap s); conns := cs;
        next_conn := next_conn s; next_ref := next_ref s |},
     broadcast s2 R' (PeerLeft c) ++ broadcast s2 R' (RoomStateMsg (roomState R'))).
Proof.
  intros Hc Hr Hne Hk Hh. simpl. rewrite Hc. unfold leaveRoom. rewrite Hc, Hr.
  assert (Ht : truthy (Some k) = true) by (simpl; apply negb_true_iff, String.eqb_neq; exact Hne).
  rewrite Ht. simpl. unfold lookup_room. simpl. rewrite Hk, Hh.
  destruct (clients (leave_room_obj c R)); reflexivity.
Qed.

(** C4 (amended): when the socket [c] of the host of a room registered under
    a non-empty id [k] closes, the room object's [hostId] is set, before any
    message of that close goes out, to the first remaining peer's key. That
    peer is a different socket, which is open, still a client of the room,
    and has [roomId] = [k]. When no peer remains, [hostId] becomes null (it
    is not left as it was), the room has no clients left, and its id is
    removed from the registry. Every [ROOM_STATE] snapshot the close sends
    carries the new [hostId]. *)
Theorem host_reelected_on_close (s : State) (c : nat) (w : Conn) (k : string) (ref : nat) (R : Room) :
  reachable s -> conns s !! c = Some w -> ws_roomId w = Some k -> k <> "" ->
  rooms s !! k = Some ref -> heap s !! ref = Some R -> hostId R = Some c ->
  exists R', heap (step s (Close c)).1 !! ref = Some R' /\
    peers R' = assoc_delete c (peers R) /\
    hostId R' = head (map fst (peers R')) /\
    (forall h, hostId R' = Some h -> h <> c /\ In h (clients R') /\
       exists w', conns (step s (Close c)).1 !! h = Some w' /\ ws_roomId w' = Some k) /\
    (hostId R' = None -> clients R' = [] /\ rooms (step s (Close c)).1 !! k = None) /\
    (forall d st, In (d, RoomStateMsg st) (step s (Close c)).2 -> sn_hostId st = hostId R').
Proof.
  intros Hreach Hc Hr Hne Hk Hh Hhost.
  pose proof (inv_reachable s Hreach) as (Ha & Hb & Hcp & _).
  rewrite (close_unfold s c w k ref R Hc Hr Hne Hk Hh). simpl.
  assert (HR : hostId (leave_room_obj c R) = head (map fst (peers (leave_room_obj c R))) /\
               peers (leave_room_obj c R) = assoc_delete c (peers R) /\
               clients (leave_room_obj c R) = set_delete c (clients R) /\
               r_id (leave_room_obj c R) = r_id R).
  { unfold leave_room_obj. rewrite bool_decide_eq_true_2 by exact Hhost. simpl. auto. }
  destruct HR as (Hho & Hpe & Hcl & Hid).
  destruct (Ha _ _ Hk) as (R0 & H0 & Hrid). rewrite Hh in H0. inversion H0; subst R0.
  assert (Hpeer : forall h, In h (map fst (peers (leave_room_obj c R))) ->
            h <> c /\ In h (clients (leave_room_obj c R)) /\
            exists w', conns s !! h = Some w' /\ ws_roomId w' = Some k).
  { intros h Hin. rewrite Hpe, assoc_delete_keys in Hin. destruct Hin as [Hin Hhc].
    split; [exact Hhc|]. split.
    - rewrite Hcl, set_delete_In. split; [|exact Hhc]. apply (Hcp _ _ _ h Hk Hh), Hin.
    - apply (Hb _ _ _ h Hk Hh Hne). right. exact Hin. }
  exists (leave_room_obj c R). rewrite lookup_insert_Some.
  split; [left; done|]. split; [exact Hpe|]. split; [exact Hho|]. split; [|split].
  - intros h Hsome. rewrite Hho in Hsome.
    destruct (map fst (peers (leave_room_obj c R))) as [|h0 t] eqn:Hm; [discriminate|].
    simpl in Hsome. inversion Hsome; subst h0.
    destruct (Hpeer h) as (Hhc & Hin & w' & Hw' & Hr'); [left; done|].
    split; [exact Hhc|]. split; [exact Hin|]. exists w'.
    rewrite lookup_delete_ne, lookup_insert_ne by congruence. auto.
  - intros Hnone. rewrite Hho in Hnone.
    destruct (map fst (peers (leave_room_obj c R))) as [|h0 t] eqn:Hm; [|discriminate].
    assert (Hemp : clients (leave_room_obj c R) = []).
    { destruct (clients (leave_room_obj c R)) as [|x t] eqn:Hx; [done|exfalso].
      assert (Hin : In x (set_delete c (clients R))) by (rewrite <- Hcl; left; done).
      rewrite set_delete_In in Hin. destruct Hin as [Hin Hxc].
      apply (Hcp _ _ _ x Hk Hh) in Hin.
      assert (Hin' : In x (map fst (peers (leave_room_obj c R)))) by (rewrite Hpe, assoc_delete_keys; auto).
      rewrite Hm in Hin'. destruct Hin'. }
    split; [exact Hemp|]. rewrite Hemp, Hid, Hrid. apply lookup_delete_eq.
  - intros d st Hin. apply in_app_or in Hin as [Hin|Hin]; apply in_broadcast in Hin as [Heq _];
      inversion Heq; reflexivity.
Qed.

Lemma leaveRoom_heap_some (c : nat) (s : State) (x : nat) (R : Room) :
  heap s !! x = Some R -> is_Some (heap (leaveRoom c s).1 !! x).
Proof.
  intros Hx. unfold leaveRoom.
  destruct (conns s !! c) as [w|]; simpl; [|eauto].
  destruct (negb _); simpl; [eauto|].
  destruct (lookup_room _ _) as [[ref R0]|]; simpl; [|eauto].
  destruct (clients (leave_room_obj c R0)); simpl; rewrite lookup_insert_is_Some'; right; eauto.
Qed.

(** JOIN_ROOM that passes the checks stores, under the sender's key, a
    fresh peer: no role and not alive *)
Lemma join_fresh_peer (s : State) (c : nat) (key : string) (w : Conn) (ref : nat) (R : Room) :
  conns s !! c = Some w -> rooms s !! key = Some ref -> heap s !! ref = Some R ->
  Qle_bool (maxPlayers (settings R)) (inject_Z (Z.of_nat (length (clients R)))) = false ->
  exists R2 p, heap (step s (Message c (JOIN_ROOM key))).1 !! ref = Some R2 /\
    assoc_get c (peers R2) = Some p /\ p_role p = None /\ p_alive p = false.
Proof.
  intros Hc Hk Hh Hf. simpl. rewrite Hc. simpl. unfold on_join. rewrite Hk, Hh, Hf.
  pose proof (leaveRoom_heap_some c s ref R Hh) as [R1 Hh1].
  assert (Hc1 : is_Some (conns (leaveRoom c s).1 !! c)) by (apply leaveRoom_conns; eauto).
  destruct Hc1 as [w1 Hw1].
  destruct (leaveRoom c s) as [s1 o1]. simpl in *. rewrite Hh1, Hw1. simpl.
  eexists; eexists. rewrite lookup_insert_Some. split; [left; done|]. simpl.
  rewrite assoc_get_set, decide_True by done. auto.
Qed.

Lemma leave_room_obj_members (c : nat) (R : Room) :
  clients (leave_room_obj c R) = set_delete c (clients R) /\
  peers (leave_room_obj c R) = assoc_delete c (peers R).
Proof. unfold leave_room_obj. case_bool_decide; simpl; auto. Qed.

(** C3 (amended): when a socket [c] in a room registered under a non-empty
    id closes, the room object no longer has [c] among its clients and
    holds no peer record under [c] any more (its name, role and alive flag
    are gone), and the socket is no longer open. There is no reconnect: the
    only way into a room is JOIN_ROOM, which stores under the sender's key
    a fresh peer with no role that is not alive. *)
Theorem disconnect_discards_peer (s : State) (c : nat) (w : Conn) (k : string) (ref : nat) (R : Room) :
  conns s !! c = Some w -> ws_roomId w = Some k -> k <> "" ->
  rooms s !! k = Some ref -> heap s !! ref = Some R ->
  (exists R', heap (step s (Close c)).1 !! ref = Some R' /\ ~ In c (clients R') /\
     assoc_get c (peers R') = None /\ conns (step s (Close c)).1 !! c = None) /\
  (forall s' c' key w' ref' R0, conns s' !! c' = Some w' -> rooms s' !! key = Some ref' ->
     heap s' !! ref' = Some R0 ->
     Qle_bool (maxPlayers (settings R0)) (inject_Z (Z.of_nat (length (clients R0)))) = false ->
     exists R2 p, heap (step s' (Message c' (JOIN_ROOM key))).1 !! ref' = Some R2 /\
       assoc_get c' (peers R2) = Some p /\ p_role p = None /\ p_alive p = false).
Proof.
  intros Hc Hr Hne Hk Hh. split; [|intros *; apply join_fresh_peer].
  rewrite (close_unfold s c w k ref R Hc Hr Hne Hk Hh). simpl.
  destruct (leave_room_obj_members c R) as [Hcl Hpe].
  exists (leave_room_obj c R). rewrite lookup_insert_Some. split; [left; done|].
  split; [|split].
  - rewrite Hcl, set_delete_In. tauto.
  - apply assoc_get_None. rewrite Hpe, assoc_delete_keys. tauto.
  - apply lookup_delete_eq.
Qed.

(** C8 (amended): in every reachable state each registry entry names a room
    object whose id is the entry's key, but CREATE_ROOM does not look the
    generated code up first: after it the code names the newly allocated
    object, which holds only the creator, and an object registered under
    that code before (always a different reference) is no longer
    registered under it. *)
Theorem create_room_replaces (s : State) (c : nat) (w : Conn) (rnd36 : string) :
  reachable s -> conns s !! c = Some w ->
  let s' := (step s (Message c (CREATE_ROOM rnd36))).1 in
  (forall k ref, rooms s' !! k = Some ref -> exists R, heap s' !! ref = Some R /\ r_id R = k) /\
  rooms s' !! genRoomId rnd36 = Some (next_ref s) /\
  (exists R', heap s' !! next_ref s = Some R' /\ clients R' = [c] /\ hostId R' = Some c) /\
  (forall ref, rooms s !! genRoomId rnd36 = Some ref -> ref <> next_ref s).
Proof.
  intros Hreach Hc s'.
  pose proof (inv_step s (Message c (CREATE_ROOM rnd36)) (inv_reachable s Hreach)) as (Ha & _).
  pose proof (inv_reachable s Hreach) as Hs.
  split; [exact Ha|]. split; [|split].
  - unfold s'. simpl. rewrite Hc. simpl. unfold on_create.
    pose proof (leaveRoom_inv c s Hs) as (_ & _ & Hnr & _ & _ & Hsome).
    destruct (Hsome w Hc) as (w1 & Hw1 & _).
    destruct (leaveRoom c s) as [s1 o1]. simpl in *. rewrite Hw1. simpl.
    rewrite Hnr. apply lookup_insert_eq.
  - unfold s'. simpl. rewrite Hc. simpl. unfold on_create.
    pose proof (leaveRoom_inv c s Hs) as (_ & _ & Hnr & _ & _ & Hsome).
    destruct (Hsome w Hc) as (w1 & Hw1 & _).
    destruct (leaveRoom c s) as [s1 o1]. simpl in *. rewrite Hw1. simpl.
    rewrite Hnr. eexists. rewrite lookup_insert_eq. auto.
  - intros ref Hk. destruct Hs as (Ha0 & _ & _ & _ & He).
    destruct (Ha0 _ _ Hk) as (R & HR & _). apply He in HR. lia.
Qed.

(** C10 (code defect): a socket is in at most one room registered under a
    non-empty id, but [Math.random()] may return 0, whose base-36 text "0"
    makes the room id ""; [leaveRoom] treats that falsy id as no room, so
    the creator of room "" who joins "ABC123" stays a client of room ""
    while being a client of "ABC123". *)
Theorem connection_in_one_room :
  (forall s c k1 k2 ref1 ref2 R1 R2, reachable s ->
     rooms s !! k1 = Some ref1 -> heap s !! ref1 = Some R1 -> k1 <> "" -> member R1 c ->
     rooms s !! k2 = Some ref2 -> heap s !! ref2 = Some R2 -> k2 <> "" -> member R2 c ->
     k1 = k2) /\
  (reachable s_empty_code /\ genRoomId "0" = "" /\
   rooms s_empty_code !! "" = Some 0 /\ rooms s_empty_code !! "ABC123" = Some 1 /\
   exists R1 R2, heap s_empty_code !! 0 = Some R1 /\ heap s_empty_code !! 1 = Some R2 /\
     In 0 (clients R1) /\ In 0 (clients R2)).
Proof.
  split.
  - intros s c k1 k2 ref1 ref2 R1 R2 Hr Hk1 Hh1 Hn1 Hm1 Hk2 Hh2 Hn2 Hm2.
    destruct (inv_reachable s Hr) as (_ & Hb & _).
    destruct (Hb _ _ _ _ Hk1 Hh1 Hn1 Hm1) as (w1 & Hw1 & Hr1).
    destruct (Hb _ _ _ _ Hk2 Hh2 Hn2 Hm2) as (w2 & Hw2 & Hr2). congruence.
  - split; [apply (reachable_run init), reach_init|].
    split; [reflexivity|]. split; [reflexivity|]. split; [reflexivity|].
    do 2 eexists. split; [reflexivity|]. split; [reflexivity|].
    split; simpl; auto.
Qed.

(** ** Counterexamples *)

(** C3: the guest [1] of room "ABC123" closes; its peer record is not kept
    with a nulled connection but deleted from the room object *)
Lemma peer_retained_counterexample :
  (exists R, heap s_two !! 0 = Some R /\ assoc_get 1 (peers R) <> None) /\
  (exists R', heap s_two_closed !! 0 = Some R' /\ assoc_get 1 (peers R') = None).
Proof.
  split; eexists; (split; [reflexivity|]); vm_compute; [discriminate|reflexivity].
Qed.

(** C4: the host is alone in its room and closes; no connected peer is
    left, and [hostId] is not left as it was but set to null *)
Lemma host_left_as_is_counterexample :
  (exists R, heap s_host_alone !! 0 = Some R /\ hostId R = Some 0) /\
  (exists R', heap (step s_host_alone (Close 0)).1 !! 0 = Some R' /\
     clients R' = [] /\ hostId R' = None).
Proof.
  split; eexists; (split; [reflexivity|]); vm_compute; auto.
Qed.

(** C8: socket [2] creates a room whose generated code is the id of the live
    room "ABC123" (clients [0] and [1]); the registry entry now names the
    new room and the live room is no longer registered *)
Lemma create_collision_counterexample :
  rooms s_two !! "ABC123" = Some 0 /\
  (exists R, heap s_two !! 0 = Some R /\ clients R = [0; 1]) /\
  rooms s_collide !! "ABC123" = Some 1 /\
  (exists R', heap s_collide !! 1 = Some R' /\ clients R' = [2]) /\
  (exists R, heap s_collide !! 0 = Some R /\ clients R = [0; 1]).
Proof.
  split; [reflexivity|]. split; [eexists; split; [reflexivity|]; vm_compute; reflexivity|].
  split; [reflexivity|].
  split; eexists; (split; [reflexivity|]); vm_compute; reflexivity.
Qed.

(** ** Witnesses *)

Lemma disconnect_discards_peer_witness :
  exists w R, conns s_two !! 1 = Some w /\ heap s_two !! 0 = Some R /\
  (exists R', heap (step s_two (Close 1)).1 !! 0 = Some R' /\ ~ In 1 (clients R') /\
     assoc_get 1 (peers R') = None /\ conns (step s_two (Close 1)).1 !! 1 = None) /\
  (forall s' c' key w' ref' R0, conns s' !! c' = Some w' -> rooms s' !! key = Some ref' ->
     heap s' !! ref' = Some R0 ->
     Qle_bool (maxPlayers (settings R0)) (inject_Z (Z.of_nat (length (clients R0)))) = false ->
     exists R2 p, heap (step s' (Message c' (JOIN_ROOM key))).1 !! ref' = Some R2 /\
       assoc_get c' (peers R2) = Some p /\ p_role p = None /\ p_alive p = false).
Proof.
  do 2 eexists. split; [reflexivity|]. split; [reflexivity|].
  eapply (disconnect_discards_peer s_two 1 _ "ABC123" 0 _);
    [reflexivity | reflexivity | discriminate | reflexivity | reflexivity].
Defined.

Lemma host_reelected_on_close_witness :
  exists w R, conns s_two !! 0 = Some w /\ heap s_two !! 0 = Some R /\
  exists R', heap (step s_two (Close 0)).1 !! 0 = Some R' /\
    peers R' = assoc_delete 0 (peers R) /\
    hostId R' = head (map fst (peers R')) /\
    (forall h, hostId R' = Some h -> h <> 0 /\ In h (clients R') /\
       exists w', conns (step s_two (Close 0)).1 !! h = Some w' /\ ws_roomId w' = Some "ABC123") /\
    (hostId R' = None -> clients R' = [] /\ rooms (step s_two (Close 0)).1 !! "ABC123" = None) /\
    (forall d st, In (d, RoomStateMsg st) (step s_two (Close 0)).2 -> sn_hostId st = hostId R').
Proof.
  do 2 eexists. split; [reflexivity|]. split; [reflexivity|].
  eapply (host_reelected_on_close s_two 0 _ "ABC123" 0 _);
    [apply (reachable_run init), reach_init | reflexivity | reflexivity | discriminate
    | reflexivity | reflexivity | reflexivity].
Defined.

Lemma create_room_replaces_witness :
  exists w, conns (step s_two Connect).1 !! 2 = Some w /\
  let s' := (step (step s_two Connect).1 (Message 2 (CREATE_ROOM "0.abc123xyz"))).1 in
  (forall k ref, rooms s' !! k = Some ref -> exists R, heap s' !! ref = Some R /\ r_id R = k) /\
  rooms s' !! genRoomId "0.abc123xyz" = Some (next_ref (step s_two Connect).1) /\
  (exists R', heap s' !! next_ref (step s_two Connect).1 = Some R' /\ clients R' = [2] /\ hostId R' = Some 2) /\
  (forall ref, rooms (step s_two Connect).1 !! genRoomId "0.abc123xyz" = Some ref ->
     ref <> next_ref (step s_two Connect).1).
Proof.
  eexists. split; [reflexivity|].
  eapply (create_room_replaces (step s_two Connect).1 2 _ "0.abc123xyz");
    [apply reach_step, (reachable_run init), reach_init | reflexivity].
Defined.

(** ** PhaseTimer *)

Section PhaseTimerProofs.
Import PhaseTimer.

Lemma trun_app (s : TState) (es1 es2 : list TEvent) : trun s (es1 ++ es2) = trun (trun s es1) es2.
Proof. unfold trun. apply fold_left_app. Qed.

Lemma trun_paused_ticks (s : TState) (n : nat) : paused s = true -> trun s (repeat TTick n) = s.
Proof.
  intros Hp. induction n as [|n IH]; [reflexivity|].
  assert (E : tstep s TTick = s).
  { unfold tstep. rewrite Hp. destruct (timer s); [rewrite andb_false_r|]; reflexivity. }
  unfold trun in *. change (fold_left tstep (repeat TTick n) (tstep s TTick) = s).
  rewrite E. exact IH.
Qed.

Lemma zero_stops_tstep (s : TState) (e : TEvent) :
  zero_stops s -> (match e with TStart d _ => Nat.ltb 0 d | _ => true end) = true ->
  zero_stops (tstep s e).
Proof.
  intros Hz He t. destruct e as [d ph| | |]; simpl.
  - intros Ht Hr. inversion Ht; subst t. simpl in Hr. apply Nat.ltb_lt in He. lia.
  - destruct (timer s) as [t0|] eqn:Ht0; [|apply Hz].
    destruct (running t0 && negb (paused s)); [|apply Hz].
    simpl. intros Ht Hr. inversion Ht; subst t. unfold tick in *. simpl in *.
    rewrite Hr. reflexivity.
  - apply Hz.
  - apply Hz.
Qed.

Lemma zero_stops_trun (es : list TEvent) (s : TState) :
  positive_starts es = true -> zero_stops s -> zero_stops (trun s es).
Proof.
  revert s. induction es as [|e t IH]; intros s Hp Hz; [exact Hz|].
  simpl in Hp. apply andb_true_iff in Hp as [He Ht].
  unfold trun. simpl. apply IH; [exact Ht|]. apply zero_stops_tstep; assumption.
Qed.
End PhaseTimerProofs.

(** C7 (amended, on the PhaseTimer modelled from the spec): started with
    [durationMs = 5000], five ticks give [remainingMs] 4000, 3000, 2000,
    1000, 0, with [running] false exactly after the fifth; after two ticks
    and a pause, any number of ticks leaves 3000 and a resume lets the next
    tick reach 2000; a tick, pause or resume never raises [remainingMs];
    and [remainingMs = 0] implies [running = false] in every state reached
    from idle by events whose starts all have a positive duration. *)
Theorem phase_timer_countdown :
  let s0 := PhaseTimer.tstep PhaseTimer.tidle (PhaseTimer.TStart 5000 "night") in
  map (fun n => PhaseTimer.view (PhaseTimer.trun s0 (repeat PhaseTimer.TTick n))) [1; 2; 3; 4; 5]
    = [Some (4000, true); Some (3000, true); Some (2000, true); Some (1000, true); Some (0, false)] /\
  (forall n, PhaseTimer.view (PhaseTimer.trun s0
       ([PhaseTimer.TTick; PhaseTimer.TTick; PhaseTimer.TPause] ++ repeat PhaseTimer.TTick n))
     = Some (3000, true)) /\
  (forall n, PhaseTimer.view (PhaseTimer.trun s0
       ([PhaseTimer.TTick; PhaseTimer.TTick; PhaseTimer.TPause] ++ repeat PhaseTimer.TTick n
        ++ [PhaseTimer.TResume; PhaseTimer.TTick]))
     = Some (2000, true)) /\
  (forall s e t t', (forall d ph, e <> PhaseTimer.TStart d ph) ->
     PhaseTimer.timer s = Some t -> PhaseTimer.timer (PhaseTimer.tstep s e) = Some t' ->
     PhaseTimer.remainingMs t' <= PhaseTimer.remainingMs t) /\
  (forall es, PhaseTimer.positive_starts es = true ->
     PhaseTimer.zero_stops (PhaseTimer.trun PhaseTimer.tidle es)).
Proof.
  intros s0. split; [reflexivity|]. split; [|split; [|split]].
  - intros n. rewrite trun_app, trun_paused_ticks by reflexivity. reflexivity.
  - intros n. rewrite trun_app, trun_app, trun_paused_ticks by reflexivity. reflexivity.
  - intros s e t t' He Ht Ht'. destruct e as [d ph| | |]; [exfalso; exact (He d ph eq_refl)| | |].
    + simpl in Ht'. rewrite Ht in Ht'.
      destruct (PhaseTimer.running t && negb (PhaseTimer.paused s)).
      * simpl in Ht'. inversion Ht'; subst t'. simpl. lia.
      * rewrite Ht in Ht'. inversion Ht'; subst t'. lia.
    + simpl in Ht'. rewrite Ht in Ht'. inversion Ht'; subst t'. lia.
    + simpl in Ht'. rewrite Ht in Ht'. inversion Ht'; subst t'. lia.
  - intros es Hp. apply zero_stops_trun; [exact Hp|]. intros t Ht. discriminate.
Qed.

(** C7: a start with [durationMs = 0] gives [remainingMs = 0] while
    [running] is still true *)
Lemma zero_duration_counterexample :
  PhaseTimer.view (PhaseTimer.tstep PhaseTimer.tidle (PhaseTimer.TStart 0 "night")) = Some (0, true).
Proof. reflexivity. Qed.

(** ** Further properties of the role-counts server *)

Lemma send_open (s : State) (c d : nat) (x m : Out) :
  In (d, m) (send s c x) -> d = c /\ is_Some (conns s !! c).
Proof.
  unfold send. destruct (conns s !! c) eqn:E; simpl; [|tauto].
  intros [H|[]]. inversion H; subst. eauto.
Qed.

Lemma broadcast_open (s : State) (R : Room) (d : nat) (x m : Out) :
  In (d, m) (broadcast s R x) -> In d (clients R) /\ is_Some (conns s !! d).
Proof.
  unfold broadcast. rewrite in_flat_map. intros (c & Hc & H).
  apply send_open in H as [-> Ho]. auto.
Qed.

Ltac open_tac H :=
  repeat match type of H with
         | In _ (_ ++ _) => apply in_app_or in H; destruct H as [H|H]
         end;
  first [ apply send_open in H as [-> ?]
        | apply broadcast_open in H as [? ?] ].

Lemma leaveRoom_open (c : nat) (s : State) (d : nat) (m : Out) :
  In (d, m) (leaveRoom c s).2 -> d <> c /\ is_Some (conns (leaveRoom c s).1 !! d).
Proof.
  unfold leaveRoom.
  destruct (conns s !! c) as [w|]; simpl; [|tauto].
  destruct (negb _); simpl; [tauto|].
  destruct (lookup_room _ _) as [[ref R]|]; simpl; [|tauto].
  destruct (leave_room_obj_members c R) as [Hcl _].
  destruct (clients (leave_room_obj c R)) eqn:Ecl; simpl; intros H; open_tac H;
    (split; [|assumption]); rewrite <- Ecl, Hcl, set_delete_In in *; tauto.
Qed.

(** Every message a step sends goes to a socket that is open after the
    step ([send] checks [readyState === 1]); the socket being closed gets
    nothing. *)
Theorem step_sends_to_open (s : State) (e : Event) (d : nat) (m : Out) :
  In (d, m) (step s e).2 ->
  is_Some (conns (step s e).1 !! d) /\ (forall c, e = Close c -> d <> c).
Proof.
  destruct e as [|c m0|c]; simpl.
  - intros H. open_tac H. split; [assumption|discriminate].
  - intros H. split; [|discriminate]. revert H.
    destruct (conns s !! c) as [w|] eqn:Hc; [|simpl; tauto].
    destruct m0 as [rnd|key|name|n|counts|draw| |]; simpl.
    + unfold on_create. pose proof (leaveRoom_open c s d m) as Hl.
      destruct (leaveRoom c s) as [s1 o1]. simpl in Hl.
      destruct (conns s1 !! c); simpl; intros H; [|apply Hl, H].
      apply in_app_or in H as [H|H].
      * rewrite lookup_insert_is_Some'. right. apply Hl, H.
      * open_tac H; first [assumption | rewrite lookup_insert_is_Some'; auto].
    + unfold on_join. destruct (rooms s !! key) as [ref|]; [|intros H; open_tac H; assumption].
      destruct (heap s !! ref) as [R|]; [|simpl; tauto].
      destruct (Qle_bool _ _); [intros H; open_tac H; assumption|].
      pose proof (leaveRoom_open c s d m) as Hl.
      destruct (leaveRoom c s) as [s1 o1]. simpl in Hl.
      destruct (heap s1 !! ref) as [R1|]; [|simpl; intros H; apply Hl, H].
      destruct (conns s1 !! c); simpl; [|intros H; apply Hl, H].
      intros H. apply in_app_or in H as [H|H].
      * rewrite lookup_insert_is_Some'. right. apply Hl, H.
      * open_tac H; assumption.
    + unfold on_set_name. rewrite Hc.
      destruct (truthy _); [|intros H; open_tac H; assumption].
      destruct (lookup_room _ _) as [[ref R]|]; [|simpl; tauto].
      intros H. open_tac H. assumption.
    + unfold on_update_settings. rewrite Hc.
      destruct (lookup_room _ _) as [[ref R]|]; [|simpl; tauto].
      destruct (negb _); intros H; open_tac H; assumption.
    + unfold on_update_role_counts. rewrite Hc.
      destruct (lookup_room _ _) as [[ref R]|]; [|simpl; tauto].
      destruct (negb _); intros H; open_tac H; assumption.
    + unfold on_start_game. rewrite Hc.
      destruct (lookup_room _ _) as [[ref R]|]; [|simpl; tauto].
      destruct (negb _); [intros H; open_tac H; assumption|].
      destruct (negb _); [intros H; open_tac H; assumption|].
      destruct (_ <? 3); [intros H; open_tac H; assumption|].
      simpl. intros H. apply in_app_or in H as [H|H].
      * apply in_flat_map in H as (kp & _ & H). open_tac H. assumption.
      * open_tac H. assumption.
    + intros H. open_tac H. assumption.
    + simpl. tauto.
  - destruct (conns s !! c); [|simpl; tauto].
    pose proof (leaveRoom_open c s d m) as Hl.
    destruct (leaveRoom c s) as [s1 o1]. simpl in *. intros H.
    destruct (Hl H) as [Hne Ho].
    split; [rewrite lookup_delete_ne by congruence; exact Ho|].
    intros c' Hc'. inversion Hc'; subst. exact Hne.
Qed.

Lemma step_sends_to_open_witness :
  In (0, PeerLeft 1) (step s_two (Close 1)).2 /\
  is_Some (conns (step s_two (Close 1)).1 !! 0) /\ (forall c, Close 1 = Close c -> 0 <> c).
Proof.
  assert (H : In (0, PeerLeft 1) (step s_two (Close 1)).2) by (vm_compute; auto).
  split; [exact H|]. exact (step_sends_to_open s_two (Close 1) 0 (PeerLeft 1) H).
Defined.

Lemma host_ok_set_heap (rs : gmap string nat) (hp : gmap nat Room) (ref : nat) (R R' : Room) :
  host_ok rs hp -> hp !! ref = Some R -> hostId R' = hostId R ->
  (forall x, In x (map fst (peers R)) -> In x (map fst (peers R'))) ->
  host_ok rs (<[ref := R']> hp).
Proof.
  intros Hh HR Hho Hkeys k ref' R0 Hk Hh0.
  apply lookup_insert_Some in Hh0 as [[<- <-]|[_ Hh0]]; [|eauto].
  destruct (Hh _ _ _ Hk HR) as (h & E & Hin). exists h. rewrite Hho. auto.
Qed.

Lemma host_ok_leave (s : State) (c : nat) (k : string) (ref : nat) (R : Room) (rs : gmap string nat) :
  inv s -> host_ok (rooms s) (heap s) -> rooms s !! k = Some ref -> heap s !! ref = Some R ->
  (forall k' r, rs !! k' = Some r -> rooms s !! k' = Some r) ->
  (rs !! k = Some ref -> clients (leave_room_obj c R) <> []) ->
  host_ok rs (<[ref := leave_room_obj c R]> (heap s)).
Proof.
  intros Hinv Hh0 Hk HR Hsub Hne k' ref' R0 Hk' Hh'.
  pose proof (Hsub _ _ Hk') as Hk's.
  apply lookup_insert_Some in Hh' as [[<- <-]|[_ Hh']]; [|eauto].
  rewrite (inv_registry_inj s k' k ref Hinv Hk's Hk) in Hk'. specialize (Hne Hk').
  destruct (Hh0 _ _ _ Hk HR) as (h & Hho & Hin).
  destruct Hinv as (_ & _ & Hcp & _).
  unfold leave_room_obj in *. case_bool_decide as Hc; simpl in *.
  - destruct (set_delete c (clients R)) as [|x t] eqn:Ecl; [congruence|].
    assert (Hx : In x (set_delete c (clients R))) by (rewrite Ecl; left; done).
    apply set_delete_In in Hx as [Hx Hxc]. apply (Hcp _ _ _ x Hk HR) in Hx.
    assert (Hx' : In x (map fst (assoc_delete c (peers R)))) by (apply assoc_delete_keys; auto).
    destruct (map fst (assoc_delete c (peers R))) as [|h' t'] eqn:Ek; [destruct Hx'|].
    exists h'. split; [reflexivity|left; done].
  - exists h. split; [exact Hho|]. apply assoc_delete_keys. split; [exact Hin|]. congruence.
Qed.

Lemma host_ok_leaveRoom (c : nat) (s : State) :
  inv s -> host_ok (rooms s) (heap s) -> host_ok (rooms (leaveRoom c s).1) (heap (leaveRoom c s).1).
Proof.
  intros Hinv Hh. unfold leaveRoom.
  destruct (conns s !! c) as [w|]; simpl; [|exact Hh].
  destruct (negb _); simpl; [exact Hh|].
  destruct (lookup_room _ _) as [[ref R]|] eqn:Hl; simpl; [|exact Hh].
  apply lookup_room_Some in Hl as (k & _ & Hk & HR). simpl in Hk, HR.
  destruct (Hinv) as (Ha & _). destruct (Ha _ _ Hk) as (R0 & H0 & Hid). rewrite HR in H0.
  inversion H0; subst R0.
  destruct (clients (leave_room_obj c R)) eqn:Ecl; simpl.
  - apply (host_ok_leave s c k ref R); auto.
    + intros k' r Hr. apply lookup_delete_Some in Hr. tauto.
    + rewrite r_id_leave_room_obj, Hid, lookup_delete_eq. discriminate.
  - apply (host_ok_leave s c k ref R); auto. rewrite Ecl. discriminate.
Qed.

Lemma host_ok_step (s : State) (e : Event) :
  inv s -> host_ok (rooms s) (heap s) -> host_ok (rooms (step s e).1) (heap (step s e).1).
Proof.
  intros Hs Hh. destruct e as [|c m|c]; simpl.
  - exact Hh.
  - destruct (conns s !! c) as [w|] eqn:Hc; [|exact Hh].
    destruct m as [rnd|key|name|n|counts|draw| |]; simpl.
    + unfold on_create.
      pose proof (host_ok_leaveRoom c s Hs Hh) as Hh1.
      pose proof (leaveRoom_inv c s Hs) as (Hs1 & _).
      destruct (leaveRoom c s) as [s1 o1]. simpl in *.
      destruct (conns s1 !! c); [|exact Hh1]. simpl.
      destruct Hs1 as (Ha & _ & _ & _ & He).
      intros k ref R Hk HR. apply lookup_insert_Some in Hk as [[<- <-]|[_ Hk]].
      * rewrite lookup_insert_eq in HR. inversion HR; subst R. exists c. simpl. auto.
      * destruct (Ha _ _ Hk) as (R0 & H0 & _).
        rewrite lookup_insert_ne in HR by (apply He in H0; lia). eauto.
    + unfold on_join. destruct (rooms s !! key) as [ref|]; [|exact Hh].
      destruct (heap s !! ref) as [R|]; [|exact Hh].
      destruct (Qle_bool _ _); [exact Hh|].
      pose proof (host_ok_leaveRoom c s Hs Hh) as Hh1.
      destruct (leaveRoom c s) as [s1 o1]. simpl in *.
      destruct (heap s1 !! ref) as [R1|] eqn:Hh1r; [|exact Hh1].
      destruct (conns s1 !! c); [|exact Hh1]. simpl.
      apply (host_ok_set_heap _ _ _ R1); [exact Hh1|exact Hh1r|reflexivity|].
      intros x Hx. simpl. apply assoc_set_keys. auto.
    + unfold on_set_name. rewrite Hc.
      destruct (truthy _); [|exact Hh].
      destruct (lookup_room _ _) as [[ref R]|] eqn:Hl; [|exact Hh].
      apply lookup_room_Some in Hl as (k & _ & _ & HR). simpl in *.
      apply (host_ok_set_heap _ _ _ R); [exact Hh|exact HR|..];
        destruct (assoc_get c (peers R)) eqn:Hp; try reflexivity; simpl; intros x Hx; [|exact Hx].
      erewrite assoc_set_keys_present by exact Hp. exact Hx.
    + unfold on_update_settings. rewrite Hc.
      destruct (lookup_room s _) as [[ref R]|] eqn:Hl; [|exact Hh].
      apply lookup_room_Some in Hl as (k & _ & _ & HR).
      destruct (negb _); [exact Hh|]. simpl.
      apply (host_ok_set_heap _ _ _ R); [exact Hh|exact HR|..]; destruct n; auto.
    + unfold on_update_role_counts. rewrite Hc.
      destruct (lookup_room s _) as [[ref R]|] eqn:Hl; [|exact Hh].
      apply lookup_room_Some in Hl as (k & _ & _ & HR).
      destruct (negb _); [exact Hh|]. simpl.
      apply (host_ok_set_heap _ _ _ R); [exact Hh|exact HR|..]; auto.
    + unfold on_start_game. rewrite Hc.
      destruct (lookup_room s _) as [[ref R]|] eqn:Hl; [|exact Hh].
      apply lookup_room_Some in Hl as (k & _ & _ & HR).
      destruct (negb _); [exact Hh|]. destruct (negb _); [exact Hh|].
      destruct (_ <? 3); [exact Hh|]. simpl.
      apply (host_ok_set_heap _ _ _ R); [exact Hh|exact HR|reflexivity|].
      intros x Hx. simpl. rewrite assign_from_keys. exact Hx.
    + exact Hh.
    + exact Hh.
  - destruct (conns s !! c); [|exact Hh].
    pose proof (host_ok_leaveRoom c s Hs Hh) as Hh1.
    destruct (leaveRoom c s) as [s1 o1]. exact Hh1.
Qed.

Lemma host_ok_reachable (s : State) : reachable s -> host_ok (rooms s) (heap s).
Proof.
  induction 1 as [|s e Hr IH].
  - intros k ref R Hk. simpl in Hk. rewrite lookup_empty in Hk. discriminate.
  - apply host_ok_step; [apply inv_reachable; exact Hr|exact IH].
Qed.

(** In every reachable state each room in the registry has a host; the
    host is one of its peers and one of its clients, and, when the room's
    id is non-empty, an open socket whose [roomId] is that id. *)
Theorem registered_room_has_host (s : State) (k : string) (ref : nat) (R : Room) :
  reachable s -> rooms s !! k = Some ref -> heap s !! ref = Some R ->
  exists h, hostId R = Some h /\ In h (map fst (peers R)) /\ In h (clients R) /\
    (k <> "" -> exists w, conns s !! h = Some w /\ ws_roomId w = Some k).
Proof.
  intros Hr Hk HR.
  destruct (host_ok_reachable s Hr _ _ _ Hk HR) as (h & Hho & Hin).
  destruct (inv_reachable s Hr) as (_ & Hb & Hcp & _).
  exists h. split; [exact Hho|]. split; [exact Hin|]. split.
  - apply (Hcp _ _ _ h Hk HR), Hin.
  - intros Hne. apply (Hb _ _ _ h Hk HR Hne). right. exact Hin.
Qed.

Lemma registered_room_has_host_witness :
  exists R, heap s_three !! 0 = Some R /\
  exists h, hostId R = Some h /\ In h (map fst (peers R)) /\ In h (clients R) /\
    ("ABC123" <> "" -> exists w, conns s_three !! h = Some w /\ ws_roomId w = Some "ABC123").
Proof.
  eexists. split; [reflexivity|].
  apply (registered_room_has_host s_three "ABC123" 0);
    [apply (reachable_run init), reach_init | reflexivity | reflexivity].
Defined.

Lemma game_ok_sub (R R' : Room) :
  game_ok R -> phase R' = phase R -> day R' = day R ->
  (forall kp, In kp (peers R') -> exists kp0, In kp0 (peers R) /\
     p_role kp.2 = p_role kp0.2 /\ p_alive kp.2 = p_alive kp0.2) -> game_ok R'.
Proof.
  intros [(Hp & Hd & Hf)|(Hp & Hd & Hf)] Hp' Hd' Hsub; rewrite List.Forall_forall in Hf;
    [left|right]; rewrite Hp', Hd'; (split; [done|]); (split; [done|]);
    apply List.Forall_forall; intros kp Hin; destruct (Hsub kp Hin) as (kp0 & Hin0 & -> & ->); auto.
Qed.

Lemma game_ok_add (R : Room) (cl : list nat) (c : nat) (p : Peer) :
  game_ok R -> p_role p = None -> p_alive p = false ->
  game_ok (room_with_members R cl (assoc_set c p (peers R))).
Proof.
  intros [(Hp & Hd & Hf)|(Hp & Hd & Hf)] Hr Ha; rewrite List.Forall_forall in Hf; [left|right]; simpl;
    (split; [done|]); (split; [done|]); apply List.Forall_forall; intros [k q] Hin;
    apply assoc_set_in in Hin as [[-> ->]|Hin]; auto.
Qed.

Lemma assoc_get_In {K V} `{EqDecision K} (k : K) (v : V) (m : list (K * V)) :
  assoc_get k m = Some v -> In (k, v) m.
Proof.
  induction m as [|[k' v'] t IH]; simpl; [discriminate|].
  destruct (decide (k = k')) as [->|]; [intros H; inversion H; auto|auto].
Qed.

Lemma games_ok_insert (hp : gmap nat Room) (ref : nat) (R : Room) :
  games_ok hp -> game_ok R -> games_ok (<[ref := R]> hp).
Proof.
  intros Hh HR x R0 Hx. apply lookup_insert_Some in Hx as [[_ <-]|[_ Hx]]; eauto.
Qed.

Lemma game_ok_leave_room_obj (c : nat) (R : Room) : game_ok R -> game_ok (leave_room_obj c R).
Proof.
  intros HR. apply (game_ok_sub R); [exact HR|unfold leave_room_obj; case_bool_decide; reflexivity..|].
  intros [k p] Hin. exists (k, p). destruct (leave_room_obj_members c R) as [_ Hpe]. rewrite Hpe in Hin.
  unfold assoc_delete in Hin. apply filter_In in Hin. tauto.
Qed.

Lemma games_ok_leaveRoom (c : nat) (s : State) : games_ok (heap s) -> games_ok (heap (leaveRoom c s).1).
Proof.
  intros Hh. unfold leaveRoom.
  destruct (conns s !! c) as [w|]; simpl; [|exact Hh].
  destruct (negb _); simpl; [exact Hh|].
  destruct (lookup_room _ _) as [[ref R]|] eqn:Hl; simpl; [|exact Hh].
  apply lookup_room_Some in Hl as (k & _ & _ & HR). simpl in HR.
  assert (Hg : games_ok (<[ref := leave_room_obj c R]> (heap s)))
    by (apply games_ok_insert; [exact Hh|apply game_ok_leave_room_obj; exact (Hh _ _ HR)]).
  destruct (clients (leave_room_obj c R)); exact Hg.
Qed.

Lemma assign_from_assigned (i : nat) (pool : list string) (ps : list (nat * Peer)) :
  i + length ps <= length pool ->
  Forall (fun kp => is_Some (p_role kp.2) /\ p_alive kp.2 = true) (assign_from i pool ps).
Proof.
  revert i. induction ps as [|[k p] t IH]; intros i Hl; simpl in *; constructor.
  - simpl. split; [apply lookup_lt_is_Some_2; lia|done].
  - apply IH. lia.
Qed.

Lemma role_pool_length (draw : nat -> nat) (n : nat) (st : Settings) :
  length (role_pool draw n st) = n.
Proof.
  unfold role_pool. rewrite fill_pool_spec, length_take.
  rewrite (Permutation_length (shuffle_perm draw (spec_pool n st))).
  pose proof (spec_pool_length n st). lia.
Qed.

Lemma games_ok_step (s : State) (e : Event) :
  games_ok (heap s) -> games_ok (heap (step s e).1).
Proof.
  intros Hh. destruct e as [|c m|c]; simpl.
  - exact Hh.
  - destruct (conns s !! c) as [w|] eqn:Hc; [|exact Hh].
    destruct m as [rnd|key|name|n|counts|draw| |]; simpl.
    + unfold on_create.
      pose proof (games_ok_leaveRoom c s Hh) as Hh1.
      destruct (leaveRoom c s) as [s1 o1]. simpl in *.
      destruct (conns s1 !! c); [|exact Hh1]. simpl.
      apply games_ok_insert; [exact Hh1|]. left. simpl.
      split; [done|]. split; [done|]. repeat constructor.
    + unfold on_join. destruct (rooms s !! key) as [ref|]; [|exact Hh].
      destruct (heap s !! ref) as [R|]; [|exact Hh].
      destruct (Qle_bool _ _); [exact Hh|].
      pose proof (games_ok_leaveRoom c s Hh) as Hh1.
      destruct (leaveRoom c s) as [s1 o1]. simpl in *.
      destruct (heap s1 !! ref) as [R1|] eqn:Hh1r; [|exact Hh1].
      destruct (conns s1 !! c); [|exact Hh1]. simpl.
      apply games_ok_insert; [exact Hh1|]. apply game_ok_add; [exact (Hh1 _ _ Hh1r)|done|done].
    + unfold on_set_name. rewrite Hc.
      destruct (truthy _); [|exact Hh].
      destruct (lookup_room _ _) as [[ref R]|] eqn:Hl; [|exact Hh].
      apply lookup_room_Some in Hl as (k & _ & _ & HR). simpl in *.
      apply games_ok_insert; [exact Hh|].
      destruct (assoc_get c (peers R)) as [p|] eqn:Hp; [|exact (Hh _ _ HR)].
      apply (game_ok_sub R); [exact (Hh _ _ HR)|reflexivity|reflexivity|].
      intros [k' q] Hin. simpl in Hin.
      apply assoc_set_in in Hin as [[-> ->]|Hin].
      * exists (c, p). split; [apply assoc_get_In; exact Hp|done].
      * exists (k', q). auto.
    + unfold on_update_settings. rewrite Hc.
      destruct (lookup_room s _) as [[ref R]|] eqn:Hl; [|exact Hh].
      apply lookup_room_Some in Hl as (k & _ & _ & HR).
      destruct (negb _); [exact Hh|]. simpl.
      apply games_ok_insert; [exact Hh|].
      destruct n; exact (Hh _ _ HR).
    + unfold on_update_role_counts. rewrite Hc.
      destruct (lookup_room s _) as [[ref R]|] eqn:Hl; [|exact Hh].
      apply lookup_room_Some in Hl as (k & _ & _ & HR).
      destruct (negb _); [exact Hh|]. simpl.
      apply games_ok_insert; [exact Hh|exact (Hh _ _ HR)].
    + unfold on_start_game. rewrite Hc.
      destruct (lookup_room s _) as [[ref R]|] eqn:Hl; [|exact Hh].
      apply lookup_room_Some in Hl as (k & _ & _ & HR).
      destruct (negb _); [exact Hh|]. destruct (negb _); [exact Hh|].
      destruct (_ <? 3); [exact Hh|]. simpl.
      apply games_ok_insert; [exact Hh|]. right. simpl.
      split; [done|]. split; [done|].
      eapply Forall_impl; [apply assign_from_assigned|].
      * rewrite role_pool_length. lia.
      * intros kp Hkp. left. exact Hkp.
    + exact Hh.
    + exact Hh.
  - destruct (conns s !! c); [|exact Hh].
    pose proof (games_ok_leaveRoom c s Hh) as Hh1.
    destruct (leaveRoom c s) as [s1 o1]. exact Hh1.
Qed.

Lemma games_ok_reachable (s : State) : reachable s -> games_ok (heap s).
Proof.
  induction 1 as [|s e Hr IH].
  - intros x R Hx. simpl in Hx. rewrite lookup_empty in Hx. discriminate.
  - apply games_ok_step. exact IH.
Qed.

(** Every room object of a reachable state is either in the lobby on day 0
    with no peer holding a role or alive, or at night on day 1 with each
    peer either dealt a role and alive, or (having joined after the start)
    without a role and not alive. *)
Theorem room_game_state (s : State) (x : nat) (R : Room) :
  reachable s -> heap s !! x = Some R ->
  (phase R = "lobby" /\ day R = 0 /\
   Forall (fun kp => p_role kp.2 = None /\ p_alive kp.2 = false) (peers R)) \/
  (phase R = "night" /\ day R = 1 /\
   Forall (fun kp => (is_Some (p_role kp.2) /\ p_alive kp.2 = true) \/
                     (p_role kp.2 = None /\ p_alive kp.2 = false)) (peers R)).
Proof. intros Hr Hx. exact (games_ok_reachable s Hr x R Hx). Qed.

Lemma room_game_state_witness :
  exists R, heap (step s_three (Message 0 (START_GAME (fun _ => 0)))).1 !! 0 = Some R /\
  ((phase R = "lobby" /\ day R = 0 /\
    Forall (fun kp => p_role kp.2 = None /\ p_alive kp.2 = false) (peers R)) \/
   (phase R = "night" /\ day R = 1 /\
    Forall (fun kp => (is_Some (p_role kp.2) /\ p_alive kp.2 = true) \/
                      (p_role kp.2 = None /\ p_alive kp.2 = false)) (peers R))).
Proof.
  eexists. split; [reflexivity|].
  apply (room_game_state (step s_three (Message 0 (START_GAME (fun _ => 0)))).1 0);
    [apply reach_step, (reachable_run init), reach_init | reflexivity].
Defined.

Lemma NoDup_set_add (x : nat) (l : list nat) : List.NoDup l -> List.NoDup (set_add x l).
Proof.
  intros Hl. unfold set_add. case_bool_decide as H; [exact Hl|].
  rewrite list_elem_of_In in H. clear -Hl H. induction l as [|a t IH]; simpl.
  - constructor; [simpl; tauto|constructor].
  - inversion Hl as [|? ? Hni Hnd]; subst. constructor.
    + rewrite in_app_iff. simpl in *. intuition.
    + apply IH; [exact Hnd|]. simpl in H. tauto.
Qed.

Lemma NoDup_map_filter {A B} (f : A -> B) (p : A -> bool) (l : list A) :
  List.NoDup (map f l) -> List.NoDup (map f (List.filter p l)).
Proof.
  induction l as [|a t IH]; simpl; intros Hnd; [constructor|].
  inversion Hnd as [|? ? Hni Hnd']; subst.
  destruct (p a); simpl; [|auto]. constructor; [|auto].
  intros Hin. apply in_map_iff in Hin as (a' & Ha' & Hin). apply filter_In in Hin as [Hin _].
  apply Hni. rewrite <- Ha'. apply in_map. exact Hin.
Qed.

Lemma settings_leave_room_obj (c : nat) (R : Room) : settings (leave_room_obj c R) = settings R.
Proof. unfold leave_room_obj. case_bool_decide; reflexivity. Qed.

Lemma room_shape_leave_room_obj (c : nat) (R : Room) : room_shape R -> room_shape (leave_room_obj c R).
Proof.
  intros (Hm & Hc & Hp). unfold room_shape.
  rewrite settings_leave_room_obj. destruct (leave_room_obj_members c R) as [-> ->].
  split; [exact Hm|]. split; [apply List.NoDup_filter, Hc|apply NoDup_map_filter, Hp].
Qed.

Lemma shapes_ok_insert (hp : gmap nat Room) (ref : nat) (R : Room) :
  shapes_ok hp -> room_shape R -> shapes_ok (<[ref := R]> hp).
Proof.
  intros Hh HR x R0 Hx. apply lookup_insert_Some in Hx as [[_ <-]|[_ Hx]]; eauto.
Qed.

Lemma shapes_ok_leaveRoom (c : nat) (s : State) : shapes_ok (heap s) -> shapes_ok (heap (leaveRoom c s).1).
Proof.
  intros Hh. unfold leaveRoom.
  destruct (conns s !! c) as [w|]; simpl; [|exact Hh].
  destruct (negb _); simpl; [exact Hh|].
  destruct (lookup_room _ _) as [[ref R]|] eqn:Hl; simpl; [|exact Hh].
  apply lookup_room_Some in Hl as (k & _ & _ & HR). simpl in HR.
  assert (Hg : shapes_ok (<[ref := leave_room_obj c R]> (heap s)))
    by (apply shapes_ok_insert; [exact Hh|apply room_shape_leave_room_obj; exact (Hh _ _ HR)]).
  destruct (clients (leave_room_obj c R)); exact Hg.
Qed.

Lemma shapes_ok_step (s : State) (e : Event) :
  shapes_ok (heap s) -> shapes_ok (heap (step s e).1).
Proof.
  intros Hh. destruct e as [|c m|c]; simpl.
  - exact Hh.
  - destruct (conns s !! c) as [w|] eqn:Hc; [|exact Hh].
    destruct m as [rnd|key|name|n|counts|draw| |]; simpl.
    + unfold on_create.
      pose proof (shapes_ok_leaveRoom c s Hh) as Hh1.
      destruct (leaveRoom c s) as [s1 o1]. simpl in *.
      destruct (conns s1 !! c); [|exact Hh1]. simpl.
      apply shapes_ok_insert; [exact Hh1|]. unfold room_shape. simpl.
      split; [unfold Qle; simpl; lia|]. split; repeat constructor; simpl; tauto.
    + unfold on_join. destruct (rooms s !! key) as [ref|]; [|exact Hh].
      destruct (heap s !! ref) as [R|]; [|exact Hh].
      destruct (Qle_bool _ _); [exact Hh|].
      pose proof (shapes_ok_leaveRoom c s Hh) as Hh1.
      destruct (leaveRoom c s) as [s1 o1]. simpl in *.
      destruct (heap s1 !! ref) as [R1|] eqn:Hh1r; [|exact Hh1].
      destruct (conns s1 !! c); [|exact Hh1]. simpl.
      apply shapes_ok_insert; [exact Hh1|].
      destruct (Hh1 _ _ Hh1r) as (Hm & Hcl & Hp). unfold room_shape. simpl.
      split; [exact Hm|]. split; [apply NoDup_set_add, Hcl|apply assoc_set_NoDup, Hp].
    + unfold on_set_name. rewrite Hc.
      destruct (truthy _); [|exact Hh].
      destruct (lookup_room _ _) as [[ref R]|] eqn:Hl; [|exact Hh].
      apply lookup_room_Some in Hl as (k & _ & _ & HR). simpl in *.
      apply shapes_ok_insert; [exact Hh|].
      destruct (Hh _ _ HR) as (Hm & Hcl & Hp).
      destruct (assoc_get c (peers R)); [|exact (Hh _ _ HR)].
      unfold room_shape. simpl. split; [exact Hm|]. split; [exact Hcl|apply assoc_set_NoDup, Hp].
    + unfold on_update_settings. rewrite Hc.
      destruct (lookup_room s _) as [[ref R]|] eqn:Hl; [|exact Hh].
      apply lookup_room_Some in Hl as (k & _ & _ & HR).
      destruct (negb _); [exact Hh|]. simpl.
      apply shapes_ok_insert; [exact Hh|].
      destruct (Hh _ _ HR) as (Hm & Hcl & Hp).
      destruct n as [q| | |]; try exact (Hh _ _ HR).
      unfold room_shape. simpl. split; [|auto].
      split; [apply Q.le_max_l|]. apply Q.max_lub; [unfold Qle; simpl; lia|apply Q.le_min_l].
    + unfold on_update_role_counts. rewrite Hc.
      destruct (lookup_room s _) as [[ref R]|] eqn:Hl; [|exact Hh].
      apply lookup_room_Some in Hl as (k & _ & _ & HR).
      destruct (negb _); [exact Hh|]. simpl.
      apply shapes_ok_insert; [exact Hh|exact (Hh _ _ HR)].
    + unfold on_start_game. rewrite Hc.
      destruct (lookup_room s _) as [[ref R]|] eqn:Hl; [|exact Hh].
      apply lookup_room_Some in Hl as (k & _ & _ & HR).
      destruct (negb _); [exact Hh|]. destruct (negb _); [exact Hh|].
      destruct (_ <? 3); [exact Hh|]. simpl.
      apply shapes_ok_insert; [exact Hh|].
      destruct (Hh _ _ HR) as (Hm & Hcl & Hp).
      unfold room_shape. simpl. rewrite assign_from_keys. auto.
    + exact Hh.
    + exact Hh.
  - destruct (conns s !! c); [|exact Hh].
    pose proof (shapes_ok_leaveRoom c s Hh) as Hh1.
    destruct (leaveRoom c s) as [s1 o1]. exact Hh1.
Qed.

Lemma shapes_ok_reachable (s : State) : reachable s -> shapes_ok (heap s).
Proof.
  induction 1 as [|s e Hr IH].
  - intros x R Hx. simpl in Hx. rewrite lookup_empty in Hx. discriminate.
  - apply shapes_ok_step. exact IH.
Qed.

(** In every reachable state each room object's [maxPlayers] lies between
    3 and 20: it starts at 11 and UPDATE_SETTINGS clamps every finite value
    into that range. *)
Theorem max_players_bounded (s : State) (x : nat) (R : Room) :
  reachable s -> heap s !! x = Some R -> (3 <= maxPlayers (settings R))%Q /\ (maxPlayers (settings R) <= 20)%Q.
Proof. intros Hr Hx. exact (proj1 (shapes_ok_reachable s Hr x R Hx)). Qed.

Lemma max_players_bounded_witness :
  exists R, heap (step s_two (Message 0 (UPDATE_SETTINGS (JFinite 100)))).1 !! 0 = Some R /\
  (3 <= maxPlayers (settings R))%Q /\ (maxPlayers (settings R) <= 20)%Q.
Proof.
  eexists. split; [reflexivity|].
  apply (max_players_bounded (step s_two (Message 0 (UPDATE_SETTINGS (JFinite 100)))).1 0);
    [apply reach_step, (reachable_run init), reach_init | reflexivity].
Defined.



(** A refused JOIN_ROOM (unknown code, or a room whose client count has
    reached [maxPlayers]) changes nothing: the sender stays in the room it
    was in, and the only message is the error, sent to the sender. *)
Theorem join_refused_keeps_state (s : State) (c : nat) (key : string) (w : Conn) :
  conns s !! c = Some w ->
  (rooms s !! key = None ->
     step s (Message c (JOIN_ROOM key)) = (s, [(c, ErrorMsg "ROOM_NOT_FOUND")])) /\
  (forall ref R, rooms s !! key = Some ref -> heap s !! ref = Some R ->
     (maxPlayers (settings R) <= inject_Z (Z.of_nat (length (clients R))))%Q ->
     step s (Message c (JOIN_ROOM key)) = (s, [(c, ErrorMsg "ROOM_IS_FULL")])).
Proof.
  intros Hc. split.
  - intros Hk. simpl. rewrite Hc. unfold on_join. rewrite Hk. unfold send. rewrite Hc. reflexivity.
  - intros ref R Hk HR Hfull. simpl. rewrite Hc. unfold on_join. rewrite Hk, HR.
    apply Qle_bool_iff in Hfull. rewrite Hfull. unfold send. rewrite Hc. reflexivity.
Qed.

Lemma join_refused_keeps_state_witness :
  let s := (run s_three [Message 0 (UPDATE_SETTINGS (JFinite 3)); Connect]).1 in
  exists w, conns s !! 3 = Some w /\
  (rooms s !! "ZZZZZZ" = None ->
     step s (Message 3 (JOIN_ROOM "ZZZZZZ")) = (s, [(3, ErrorMsg "ROOM_NOT_FOUND")])) /\
  (forall ref R, rooms s !! "ABC123" = Some ref -> heap s !! ref = Some R ->
     (maxPlayers (settings R) <= inject_Z (Z.of_nat (length (clients R))))%Q ->
     step s (Message 3 (JOIN_ROOM "ABC123")) = (s, [(3, ErrorMsg "ROOM_IS_FULL")])).
Proof.
  intros s. eexists. split; [reflexivity|]. split.
  - exact (proj1 (join_refused_keeps_state s 3 "ZZZZZZ" _ eq_refl)).
  - exact (proj2 (join_refused_keeps_state s 3 "ABC123" _ eq_refl)).
Defined.



Lemma filter_enabled_fold (catalog l acc : list string) :
  List.NoDup acc ->
  exists l', fold_left (fun filtered r =>
      if bool_decide (r ∈ catalog) && negb (bool_decide (r ∈ filtered)) then filtered ++ [r]
      else filtered) l acc = acc ++ l' /\
    sublist l' l /\ List.NoDup (acc ++ l') /\
    (forall r, In r (acc ++ l') <-> In r acc \/ (In r l /\ In r catalog)).
Proof.
  revert acc. induction l as [|r l IH]; intros acc Hnd; simpl.
  - exists []. rewrite app_nil_r. split; [done|]. split; [constructor|]. split; [exact Hnd|]. tauto.
  - destruct (bool_decide (r ∈ catalog)) eqn:Ec; destruct (bool_decide (r ∈ acc)) eqn:Ea; simpl.
    + destruct (IH acc Hnd) as (l' & E & Hs & Hn & Hm). exists l'.
      split; [exact E|]. split; [by apply sublist_cons|]. split; [exact Hn|].
      apply bool_decide_eq_true_1 in Ea. rewrite list_elem_of_In in Ea.
      intros x. rewrite Hm. intuition congruence.
    + apply bool_decide_eq_true_1 in Ec. apply bool_decide_eq_false_1 in Ea.
      rewrite list_elem_of_In in Ec, Ea.
      assert (Hnd' : List.NoDup (acc ++ [r])).
      { clear -Hnd Ea. induction acc as [|a t IHa]; simpl.
        - constructor; [simpl; tauto|constructor].
        - inversion Hnd as [|? ? Hni Hnd0]; subst. constructor.
          + rewrite in_app_iff. simpl in *. intuition.
          + apply IHa; [exact Hnd0|]. simpl in Ea. tauto. }
      destruct (IH (acc ++ [r]) Hnd') as (l' & E & Hs & Hn & Hm). exists (r :: l').
      rewrite <- app_assoc in E, Hn, Hm. simpl in E, Hn, Hm.
      split; [exact E|]. split; [by apply sublist_skip|]. split; [exact Hn|].
      intros x. rewrite Hm. rewrite in_app_iff. simpl. intuition congruence.
    + destruct (IH acc Hnd) as (l' & E & Hs & Hn & Hm). exists l'.
      split; [exact E|]. split; [by apply sublist_cons|]. split; [exact Hn|].
      apply bool_decide_eq_false_1 in Ec. rewrite list_elem_of_In in Ec.
      intros x. rewrite Hm. intuition congruence.
    + destruct (IH acc Hnd) as (l' & E & Hs & Hn & Hm). exists l'.
      split; [exact E|]. split; [by apply sublist_cons|]. split; [exact Hn|].
      apply bool_decide_eq_false_1 in Ec. rewrite list_elem_of_In in Ec.
      intros x. rewrite Hm. intuition congruence.
Qed.

Lemma filter_enabled_spec (catalog input : list string) :
  sublist (filter_enabled catalog input) input /\ List.NoDup (filter_enabled catalog input) /\
  (forall r, In r (filter_enabled catalog input) <-> In r input /\ In r catalog).
Proof.
  destruct (filter_enabled_fold catalog input [] (List.NoDup_nil _)) as (l' & E & Hs & Hn & Hm).
  unfold filter_enabled. rewrite E. simpl in *. split; [exact Hs|]. split; [exact Hn|].
  intros r. rewrite Hm. tauto.
Qed.

(** UPDATE_ROLE_POOL of the [enabledRoles] variant keeps the payload's own
    order (not the catalog's): an accepted list is a sub-sequence of the
    payload, without duplicates, holds exactly the payload's catalog roles
    and has at least 3 of them; the update is refused with
    [ROLE_POOL_TOO_SMALL] exactly when the payload names fewer than 3
    distinct catalog roles. *)
Theorem enabled_roles_update (catalog input : list string) :
  (forall f, update_enabled_roles catalog input = inr f ->
     sublist f input /\ List.NoDup f /\ 3 <= length f /\
     (forall r, In r f <-> In r input /\ In r catalog)) /\
  (update_enabled_roles catalog input = inl "ROLE_POOL_TOO_SMALL" <->
     forall l, List.NoDup l -> (forall r, In r l -> In r input /\ In r catalog) -> length l < 3).
Proof.
  destruct (filter_enabled_spec catalog input) as (Hs & Hn & Hm).
  unfold update_enabled_roles. split.
  - intros f. destruct (length (filter_enabled catalog input) <? 3) eqn:E; [discriminate|].
    intros H. inversion H; subst f. apply Nat.ltb_ge in E. auto.
  - destruct (length (filter_enabled catalog input) <? 3) eqn:E.
    + apply Nat.ltb_lt in E. split; [|done]. intros _ l Hl Hin.
      assert (Hincl : incl l (filter_enabled catalog input)) by (intros r Hr; apply Hm, Hin, Hr).
      pose proof (NoDup_incl_length Hl Hincl). lia.
    + apply Nat.ltb_ge in E. split; [discriminate|]. intros H.
      specialize (H _ Hn (fun r Hr => proj1 (Hm r) Hr)). lia.
Qed.

Lemma deal_pool (draw1 draw2 : nat -> nat) (n : nat) (base : list string) :
  pad_loop n n (shuffle draw1 base) ≡ₚ base ++ repeat "citizen" (n - length base) /\
  length (pad_loop n n (shuffle draw1 base)) = length base + (n - length base).
Proof.
  pose proof (shuffle_perm draw1 base) as Hp.
  rewrite pad_loop_eq by lia. rewrite (Permutation_length Hp).
  split; [apply Permutation_app_tail; exact Hp|]. rewrite length_app, repeat_length, (Permutation_length Hp). lia.
Qed.

Lemma deal_spec (draw1 draw2 : nat -> nat) (n : nat) (base : list string) :
  length (deal draw1 draw2 n base) = n /\
  (exists rest, deal draw1 draw2 n base ++ rest ≡ₚ base ++ repeat "citizen" (n - length base)) /\
  (length base <= n -> deal draw1 draw2 n base ≡ₚ base ++ repeat "citizen" (n - length base)).
Proof.
  destruct (deal_pool draw1 draw2 n base) as [Hp Hl].
  set (P := pad_loop n n (shuffle draw1 base)) in *.
  pose proof (shuffle_perm draw2 P) as Hs.
  unfold deal. fold P. split; [|split].
  - rewrite length_take, (Permutation_length Hs), Hl. lia.
  - exists (drop n (shuffle draw2 P)). rewrite take_drop, Hs. exact Hp.
  - intros Hn. rewrite take_ge by (rewrite (Permutation_length Hs), Hl; lia). rewrite Hs. exact Hp.
Qed.

(** The deal of the role-pool variants hands out exactly [n] roles, taken
    from the pool padded with "citizen" up to [n]: with the undealt rest
    they make up that padded pool, and when the pool has at most [n] entries
    every one of them is dealt. *)
Theorem deal_from_pool (draw1 draw2 : nat -> nat) (n : nat) (base : list string) :
  length (deal draw1 draw2 n base) = n /\
  (exists rest, deal draw1 draw2 n base ++ rest ≡ₚ base ++ repeat "citizen" (n - length base)) /\
  (length base <= n -> deal draw1 draw2 n base ≡ₚ base ++ repeat "citizen" (n - length base)).
Proof. exact (deal_spec draw1 draw2 n base). Qed.




Section MinimalProofs.
Import Minimal.



End MinimalProofs.



(** A name set while in no room is the name the socket gets as a peer when
    it then joins a room ([ws.name || "Guest"]). *)
Theorem name_set_before_join (s : State) (c : nat) (w : Conn) (n key : string) (ref : nat) (R : Room) :
  conns s !! c = Some w -> ws_roomId w = None -> n <> "" ->
  rooms s !! key = Some ref -> heap s !! ref = Some R ->
  Qle_bool (maxPlayers (settings R)) (inject_Z (Z.of_nat (length (clients R)))) = false ->
  exists R' p, heap (step (step s (Message c (SET_NAME n))).1 (Message c (JOIN_ROOM key))).1 !! ref = Some R' /\
    assoc_get c (peers R') = Some p /\ p_name p = n.
Proof.
  intros Hc Hr Hn Hk HR Hq.
  assert (Hne : String.eqb n "" = false) by (apply String.eqb_neq; exact Hn).
  assert (E1 : (step s (Message c (SET_NAME n))).1 = set_conn s c (conn_with_name w (Some n))).
  { simpl. rewrite Hc. unfold on_set_name. rewrite Hc, Hne. simpl. rewrite Hr. reflexivity. }
  rewrite E1. set (w' := conn_with_name w (Some n)).
  assert (Hc' : conns (set_conn s c w') !! c = Some w') by (simpl; apply lookup_insert_eq).
  assert (Hl : leaveRoom c (set_conn s c w') = (set_conn s c w', [])).
  { unfold leaveRoom. rewrite Hc'. simpl. rewrite Hr. reflexivity. }
  unfold step. rewrite Hc'. unfold dispatch, on_join.
  change (rooms (set_conn s c w')) with (rooms s). change (heap (set_conn s c w')) with (heap s).
  rewrite Hk, HR, Hq, Hl.
  change (heap (set_conn s c w')) with (heap s). rewrite HR, Hc'.
  eexists; eexists. split; [simpl; apply lookup_insert_eq|].
  simpl. rewrite assoc_get_set. rewrite decide_True by reflexivity. split; [reflexivity|].
  simpl. rewrite Hne. reflexivity.
Qed.

Lemma name_set_before_join_witness :
  let s := (step s_three Connect).1 in
  exists w R, conns s !! 3 = Some w /\ ws_roomId w = None /\ "Ann" <> "" /\
  rooms s !! "ABC123" = Some 0 /\ heap s !! 0 = Some R /\
  Qle_bool (maxPlayers (settings R)) (inject_Z (Z.of_nat (length (clients R)))) = false /\
  exists R' p, heap (step (step s (Message 3 (SET_NAME "Ann"))).1 (Message 3 (JOIN_ROOM "ABC123"))).1 !! 0
                 = Some R' /\ assoc_get 3 (peers R') = Some p /\ p_name p = "Ann".
Proof.
  intros s. do 2 eexists.
  split; [reflexivity|]. split; [reflexivity|]. split; [discriminate|].
  split; [reflexivity|]. split; [reflexivity|]. split; [reflexivity|].
  eapply name_set_before_join; [reflexivity|reflexivity|discriminate|reflexivity|reflexivity|reflexivity].
Defined.

Section V1Proofs.
Import V1.

Lemma v1_room_Some (s : V1State) (c : nat) (k : string) (R : V1Room) :
  v1_room s c = Some (k, R) -> v_conns s !! c = Some (Some k) /\ v_rooms s !! k = Some R.
Proof.
  unfold v1_room. destruct (v_conns s !! c) as [[k'|]|]; try discriminate.
  destruct (v_rooms s !! k') eqn:E; [|discriminate]. intros H. inversion H; subst. auto.
Qed.

Lemma v1_insert_same_host (rs : gmap string V1Room) (k0 k : string) (R0 R R' : V1Room) :
  rs !! k0 = Some R0 -> v_hostId R = v_hostId R0 -> <[k0 := R]> rs !! k = Some R' ->
  exists R1, rs !! k = Some R1 /\ v_hostId R' = v_hostId R1.
Proof.
  intros H0 Hh Hk. apply lookup_insert_Some in Hk as [[<- <-]|[_ Hk]]; eauto.
Qed.

(** every room after a step is the room that was under the same code,
    with the same host, or the new room of a CREATE_ROOM with that code,
    whose host is the sender *)
Lemma v1_step_rooms (lower : string -> string) (s : V1State) (e : V1Event) (k : string) (R' : V1Room) :
  v_rooms (v1_step lower s e).1 !! k = Some R' ->
  (exists R, v_rooms s !! k = Some R /\ v_hostId R' = v_hostId R) \/
  (creates_code k e = true /\ exists c rnd, e = V1Message c (V1_CREATE_ROOM rnd) /\
     is_Some (v_conns s !! c) /\ v_hostId R' = c).
Proof.
  intros Hk. destruct e as [|c m|c]; simpl in *.
  - left. eauto.
  - destruct (v_conns s !! c) as [x|] eqn:Hc; [|left; eauto].
    destruct m as [rnd|key|raw|n|pool|d1 d2| |]; simpl in *.
    + apply lookup_insert_Some in Hk as [[<- <-]|[Hne Hk]].
      * right. split; [apply String.eqb_refl|]. exists c, rnd. rewrite Hc. auto.
      * left. eauto.
    + destruct (v_rooms s !! key) as [R|] eqn:HR; [|left; eauto].
      destruct (Qle_bool _ _); [left; eauto|]. simpl in Hk.
      left. eapply v1_insert_same_host; [exact HR| |exact Hk]; reflexivity.
    + destruct (v1_room s c) as [[k0 R]|] eqn:Hl; [|left; eauto].
      apply v1_room_Some in Hl as [_ HR].
      destruct (String.eqb raw ""); [left; eauto|]. destruct (existsb _ _); [left; eauto|].
      simpl in Hk. left. eapply v1_insert_same_host; [exact HR| |exact Hk].
      destruct (assoc_get c (v_peers R)); reflexivity.
    + destruct (v1_room s c) as [[k0 R]|] eqn:Hl; [|left; eauto].
      apply v1_room_Some in Hl as [_ HR].
      destruct (negb _); [left; eauto|]. simpl in Hk.
      left. eapply v1_insert_same_host; [exact HR| |exact Hk]. destruct n; reflexivity.
    + destruct (v1_room s c) as [[k0 R]|] eqn:Hl; [|left; eauto].
      apply v1_room_Some in Hl as [_ HR].
      destruct (negb _); [left; eauto|]. destruct (_ <? 3); [left; eauto|]. simpl in Hk.
      left. eapply v1_insert_same_host; [exact HR| |exact Hk]; reflexivity.
    + destruct (v1_room s c) as [[k0 R]|] eqn:Hl; [|left; eauto].
      apply v1_room_Some in Hl as [_ HR].
      destruct (negb _); [left; eauto|]. destruct (negb _); [left; eauto|].
      destruct (_ <? 3); [left; eauto|]. simpl in Hk.
      left. eapply v1_insert_same_host; [exact HR| |exact Hk]; reflexivity.
    + left. eauto.
    + left. eauto.
  - destruct (v_conns s !! c) as [[k0|]|] eqn:Hc; simpl in *; [|left; eauto|left; eauto].
    destruct (v_rooms s !! k0) as [R|] eqn:HR; simpl in *; [|left; eauto].
    left. destruct (set_delete c (v_clients R)); simpl in Hk.
    + apply lookup_delete_Some in Hk as [_ Hk]. eauto.
    + eapply v1_insert_same_host; [exact HR| |exact Hk]; reflexivity.
Qed.

Lemma v1_step_conns (lower : string -> string) (s : V1State) (e : V1Event) (d : nat) (x : option string) :
  v_conns (v1_step lower s e).1 !! d = Some x ->
  is_Some (v_conns s !! d) \/ (e = V1Connect /\ d = v_next s).
Proof.
  intros Hd. destruct e as [|c m|c]; simpl in *.
  - apply lookup_insert_Some in Hd as [[<- _]|[_ Hd]]; [right; auto|left; eauto].
  - destruct (v_conns s !! c) as [y|] eqn:Hc; [|left; eauto].
    destruct m as [rnd|key|raw|n|pool|d1 d2| |]; simpl in *.
    + left. apply lookup_insert_Some in Hd as [[<- _]|[_ Hd]]; [rewrite Hc|]; eauto.
    + destruct (v_rooms s !! key); [|left; eauto]. destruct (Qle_bool _ _); [left; eauto|].
      left. simpl in Hd. apply lookup_insert_Some in Hd as [[<- _]|[_ Hd]]; [rewrite Hc|]; eauto.
    + destruct (v1_room s c) as [[k0 R]|]; [|left; eauto].
      destruct (String.eqb raw ""); [left; eauto|]. destruct (existsb _ _); left; eauto.
    + destruct (v1_room s c) as [[k0 R]|]; [|left; eauto]. destruct (negb _); left; eauto.
    + destruct (v1_room s c) as [[k0 R]|]; [|left; eauto].
      destruct (negb _); [left; eauto|]. destruct (_ <? 3); left; eauto.
    + destruct (v1_room s c) as [[k0 R]|]; [|left; eauto].
      destruct (negb _); [left; eauto|]. destruct (negb _); [left; eauto|].
      destruct (_ <? 3); left; eauto.
    + left. eauto.
    + left. eauto.
  - left. destruct (v_conns s !! c) as [[k0|]|] eqn:Hc; simpl in *; [| |eauto].
    + destruct (v_rooms s !! k0) as [R|]; simpl in *;
        [destruct (set_delete c (v_clients R)); simpl in Hd|];
        apply lookup_delete_Some in Hd as [_ Hd]; eauto.
    + apply lookup_delete_Some in Hd as [_ Hd]. eauto.
Qed.

Lemma v1_step_next (lower : string -> string) (s : V1State) (e : V1Event) :
  v_next s <= v_next (v1_step lower s e).1.
Proof.
  destruct e as [|c m|c]; simpl; [lia| |];
    [destruct (v_conns s !! c); simpl; [destruct m; simpl|lia]|];
    repeat (case_match; simpl; try lia); lia.
Qed.

Definition v1_inv (s : V1State) : Prop :=
  (forall c x, v_conns s !! c = Some x -> c < v_next s) /\
  (forall k R, v_rooms s !! k = Some R -> v_hostId R < v_next s).

Lemma v1_inv_step (lower : string -> string) (s : V1State) (e : V1Event) :
  v1_inv s -> v1_inv (v1_step lower s e).1.
Proof.
  intros [Hc Hr]. pose proof (v1_step_next lower s e) as Hn. split.
  - intros d x Hd. apply v1_step_conns in Hd as [[y Hy]|[-> ->]].
    + apply Hc in Hy. lia.
    + simpl. lia.
  - intros k R' Hk. apply v1_step_rooms in Hk as [(R & HR & ->)|(_ & c & rnd & -> & [y Hy] & ->)].
    + apply Hr in HR. lia.
    + apply Hc in Hy. lia.
Qed.

Lemma v1_inv_reachable (lower : string -> string) (s : V1State) : v1_reachable lower s -> v1_inv s.
Proof.
  induction 1 as [|s e _ IH].
  - split; intros ? ? H; simpl in H; rewrite lookup_empty in H; discriminate.
  - apply v1_inv_step, IH.
Qed.

Lemma v1_reachable_run (lower : string -> string) (s : V1State) (es : list V1Event) :
  v1_reachable lower s -> v1_reachable lower (v1_run lower s es).
Proof.
  revert s. induction es as [|e t IH]; intros s Hs; simpl; [exact Hs|].
  apply IH. apply v1_reach_step, Hs.
Qed.

Lemma v1_locked_run (lower : string -> string) (s : V1State) (es : list V1Event) (k : string) (h : nat) :
  v1_inv s -> h < v_next s -> v_conns s !! h = None ->
  (forall R', v_rooms s !! k = Some R' -> v_hostId R' = h) ->
  forallb (fun e => negb (creates_code k e)) es = true ->
  v_conns (v1_run lower s es) !! h = None /\
  (forall R', v_rooms (v1_run lower s es) !! k = Some R' -> v_hostId R' = h).
Proof.
  revert s. induction es as [|e t IH]; intros s Hi Hh Hc Hk Hes; simpl in *; [auto|].
  apply andb_true_iff in Hes as [He Hes]. apply negb_true_iff in He.
  pose proof (v1_step_next lower s e) as Hn.
  apply IH; [apply v1_inv_step, Hi|lia| | |exact Hes].
  - destruct (v_conns (v1_step lower s e).1 !! h) as [x|] eqn:Ex; [|reflexivity].
    apply v1_step_conns in Ex as [[y Hy]|[_ ->]]; [congruence|lia].
  - intros R' HR'. apply v1_step_rooms in HR' as [(R & HR & ->)|(Hce & _)]; [auto|congruence].
Qed.

(** In the first server nobody takes over a room whose host has left: as
    long as no CREATE_ROOM reuses its code, the room keeps the departed
    host's id, that socket never comes back, and every UPDATE_SETTINGS,
    UPDATE_ROLE_POOL or START_GAME from a member of the room is refused,
    changing nothing and answering only the sender. *)
Theorem v1_room_locked_without_host (lower : string -> string) (s : V1State) (es : list V1Event)
  (k : string) (R : V1Room) :
  v1_reachable lower s -> v_rooms s !! k = Some R -> v_conns s !! v_hostId R = None ->
  forallb (fun e => negb (creates_code k e)) es = true ->
  forall R', v_rooms (v1_run lower s es) !! k = Some R' ->
    v_hostId R' = v_hostId R /\
    forall d m, v_conns (v1_run lower s es) !! d = Some (Some k) ->
      (exists n, m = V1_UPDATE_SETTINGS n) \/ (exists p, m = V1_UPDATE_ROLE_POOL p) \/
      (exists d1 d2, m = V1_START_GAME d1 d2) ->
      exists err, v1_step lower (v1_run lower s es) (V1Message d m) =
                  (v1_run lower s es, [(d, V1Error err)]).
Proof.
  intros Hr HR Hc Hes R' HR'.
  pose proof (v1_inv_reachable lower s Hr) as Hi.
  assert (Hk0 : forall R0, v_rooms s !! k = Some R0 -> v_hostId R0 = v_hostId R)
    by (intros R0 H0; rewrite HR in H0; inversion H0; reflexivity).
  destruct (v1_locked_run lower s es k (v_hostId R) Hi (proj2 Hi _ _ HR) Hc Hk0 Hes) as [Hc' Hk'].
  split; [exact (Hk' R' HR')|].
  set (s' := v1_run lower s es) in *.
  intros d m Hd Hm.
  assert (Hne : Nat.eqb (v_hostId R') d = false).
  { apply Nat.eqb_neq. intros E. rewrite (Hk' R' HR') in E. rewrite E in Hc'. congruence. }
  assert (Hl : v1_room s' d = Some (k, R')) by (unfold v1_room; rewrite Hd, HR'; reflexivity).
  simpl. rewrite Hd.
  destruct Hm as [[n ->]|[[p ->]|(d1 & d2 & ->)]]; simpl; rewrite Hl, Hne; simpl;
    unfold v1_send; rewrite Hd; eexists; reflexivity.
Qed.

Lemma v1_room_locked_without_host_witness :
  let s := v1_run (fun x => x) v1_init
             [V1Connect; V1Connect; V1Message 0 (V1_CREATE_ROOM "0.abcdef");
              V1Message 1 (V1_JOIN_ROOM "ABCDEF"); V1Close 0] in
  let es := [V1Connect; V1Message 2 (V1_JOIN_ROOM "ABCDEF")] in
  exists R R', v_rooms s !! "ABCDEF" = Some R /\ v_conns s !! v_hostId R = None /\
    v_rooms (v1_run (fun x => x) s es) !! "ABCDEF" = Some R' /\
    v_hostId R' = v_hostId R /\
    exists err, v1_step (fun x => x) (v1_run (fun x => x) s es)
                  (V1Message 1 (V1_START_GAME (fun _ => 0) (fun _ => 0))) =
                (v1_run (fun x => x) s es, [(1, V1Error err)]).
Proof.
  intros s es.
  assert (Hr : v1_reachable (fun x => x) s).
  { apply v1_reachable_run, v1_reach_init. }
  do 2 eexists. split; [reflexivity|]. split; [reflexivity|]. split; [reflexivity|].
  edestruct (v1_room_locked_without_host (fun x => x) s es "ABCDEF") as [Hh Hlock];
    [exact Hr|reflexivity|reflexivity|reflexivity|reflexivity|].
  split; [exact Hh|]. apply Hlock; [reflexivity|]. right. right. do 2 eexists. reflexivity.
Defined.

(** In the first server a JOIN_ROOM into the room a socket is already a
    peer of replaces its peer record by a blank one: its name and role are
    gone, and the public room state shows it alive with an empty name. *)
Theorem v1_rejoin_resets_peer (lower : string -> string) (s : V1State) (c : nat) (x : option string)
  (k : string) (R : V1Room) :
  v_conns s !! c = Some x -> v_rooms s !! k = Some R ->
  Qle_bool (v_maxPlayers R) (inject_Z (Z.of_nat (length (v_clients R)))) = false ->
  exists R', v_rooms (v1_step lower s (V1Message c (V1_JOIN_ROOM k))).1 !! k = Some R' /\
    assoc_get c (v_peers R') = Some {| v_name := None; v_role := None; v_alive := None |} /\
    In (c, "", true) (sv_peers (v1_roomState R')).
Proof.
  intros Hc HR Hq. simpl. rewrite Hc. simpl. rewrite HR, Hq. simpl.
  eexists. split; [apply lookup_insert_eq|]. simpl.
  rewrite assoc_get_set, decide_True by reflexivity. split; [reflexivity|].
  apply in_map_iff. exists (c, {| v_name := None; v_role := None; v_alive := None |}).
  split; [reflexivity|].
  apply assoc_get_In. rewrite assoc_get_set, decide_True by reflexivity. reflexivity.
Qed.

Lemma v1_rejoin_resets_peer_witness :
  let s := v1_run (fun x => x) v1_init
             [V1Connect; V1Message 0 (V1_CREATE_ROOM "0.abcdef"); V1Message 0 (V1_SET_NAME "Ann")] in
  exists x R R', v_conns s !! 0 = Some x /\ v_rooms s !! "ABCDEF" = Some R /\
    assoc_get 0 (v_peers R) = Some {| v_name := Some "Ann"; v_role := None; v_alive := None |} /\
    Qle_bool (v_maxPlayers R) (inject_Z (Z.of_nat (length (v_clients R)))) = false /\
    v_rooms (v1_step (fun x => x) s (V1Message 0 (V1_JOIN_ROOM "ABCDEF"))).1 !! "ABCDEF" = Some R' /\
    assoc_get 0 (v_peers R') = Some {| v_name := None; v_role := None; v_alive := None |} /\
    In (0, "", true) (sv_peers (v1_roomState R')).
Proof.
  intros s. do 2 eexists.
  destruct (v1_rejoin_resets_peer (fun x => x) s 0 (Some "ABCDEF") "ABCDEF"
              {| v_id := "ABCDEF"; v_hostId := 0; v_phase := "lobby"; v_day := 0; v_clients := [0];
                 v_peers := [(0, {| v_name := Some "Ann"; v_role := None; v_alive := None |})];
                 v_maxPlayers := 11; v_rolePool := default_pool |})
    as (R' & H1 & H2 & H3); [reflexivity|reflexivity|reflexivity|].
  exists R'. split; [reflexivity|]. split; [reflexivity|]. split; [reflexivity|].
  split; [reflexivity|]. auto.
Defined.

End V1Proofs.
